(** * Netto receipt parser (pricetracker_gas): shallow embedding and specification

    The embedded code is [extractNettoReceiptData] and its helpers
    [extractStoreAndPurchaseString], [extractStoreAddress],
    [extractLineItems] and [extractLineItemsArray], and the spreadsheet
    loader that calls it ([processMessage], [extractReceiptData],
    [loadReceiptDataToSheet], [getStoreId], [getPurchaseId],
    [findMatchingPurchaseId], [loadLineItems], [getLastRowData]).

    JavaScript strings are modelled as Rocq [string]s whose characters are
    UTF-16 code units in the Latin-1 range (0..255); regular expressions are
    run by a backtracking matcher that lists the matches of a pattern in the
    order an ECMAScript engine tries them; numbers are IEEE-754 binary64
    values ([SpecFloat.spec_float] at precision 53, maximal exponent 1024). *)

From Stdlib Require Import List Bool Arith Lia ZArith.
From Stdlib Require Import Strings.String Strings.Ascii.
From Stdlib Require Import Floats.SpecFloat.
From Stdlib Require Import Numbers.DecimalPos Numbers.DecimalN Numbers.DecimalString.
Import ListNotations.

Open Scope string_scope.

(* ------------------------------------------------------------------ *)
(** ** Characters and JavaScript string primitives *)

Definition dq : ascii := "034"%char.
Definition dq_s : string := String dq EmptyString.
Definition nl : ascii := "010"%char.
Definition nl_s : string := String nl EmptyString.

(** ECMAScript LineTerminator restricted to Latin-1: LF and CR. *)
Definition is_line_terminator (a : ascii) : bool :=
  let n := nat_of_ascii a in (Nat.eqb n 10) || (Nat.eqb n 13).

(** ECMAScript WhiteSpace or LineTerminator restricted to Latin-1
    (TAB, LF, VT, FF, CR, SPACE, NO-BREAK SPACE), as stripped by [trim]. *)
Definition is_js_space (a : ascii) : bool :=
  let n := nat_of_ascii a in
  ((Nat.leb 9 n) && (Nat.leb n 13)) || (Nat.eqb n 32) || (Nat.eqb n 160).

Definition is_digit (a : ascii) : bool :=
  let n := nat_of_ascii a in (Nat.leb 48 n) && (Nat.leb n 57).

Fixpoint trim_start_l (l : list ascii) : list ascii :=
  match l with
  | [] => []
  | a :: l' => if is_js_space a then trim_start_l l' else l
  end.

(** [String.prototype.trim]. *)
Definition js_trim (s : string) : string :=
  string_of_list_ascii
    (rev (trim_start_l (rev (trim_start_l (list_ascii_of_string s))))).

Fixpoint starts_with (p s : string) : bool :=
  match p, s with
  | EmptyString, _ => true
  | String a p', String b s' => Ascii.eqb a b && starts_with p' s'
  | String _ _, EmptyString => false
  end.

Fixpoint drop_n (n : nat) (s : string) : string :=
  match n, s with
  | O, _ => s
  | S n', String _ s' => drop_n n' s'
  | S _, EmptyString => EmptyString
  end.

(** [s.split(sep)] for a non-empty separator [sep]: [cur] is the piece
    read so far, [fuel] bounds the number of characters still to read. *)
Fixpoint split_go (fuel : nat) (sep s cur : string) : list string :=
  match fuel with
  | O => [cur ++ s]
  | S f =>
      match s with
      | EmptyString => [cur]
      | String c s' =>
          if starts_with sep s
          then cur :: split_go f sep (drop_n (length sep) s) EmptyString
          else split_go f sep s' (cur ++ String c EmptyString)
      end
  end.

Definition js_split (sep s : string) : list string :=
  split_go (S (length s)) sep s EmptyString.

(** [s.replace(pat, rep)] with a string pattern: first occurrence only. *)
Fixpoint js_replace (pat rep s : string) : string :=
  if starts_with pat s then rep ++ drop_n (length pat) s
  else match s with
       | EmptyString => EmptyString
       | String c s' => String c (js_replace pat rep s')
       end.

(** [arr.join(sep)]. *)
Fixpoint js_join (sep : string) (l : list string) : string :=
  match l with
  | [] => EmptyString
  | [x] => x
  | x :: l' => x ++ sep ++ js_join sep l'
  end.

(** [arr.slice(b, e)] with non-negative bounds. *)
Definition js_slice {A} (b e : nat) (l : list A) : list A :=
  firstn (e - b) (skipn b l).

(** [arr.includes(x)] on strings. *)
Definition js_includes (l : list string) (x : string) : bool :=
  existsb (String.eqb x) l.

(* ------------------------------------------------------------------ *)
(** ** Regular expressions

    The patterns of the source use literal characters, [.], [\d], greedy
    and lazy [*] and [+], and one capturing group.  [mt r s c] lists, in
    backtracking order, every way [r] can match a prefix of [s]: the
    remaining input and the contents of capture group 1 ([c] on entry). *)

Inductive regex : Type :=
  | RChar (a : ascii)
  | RAny                         (* . *)
  | RDigit                       (* \d *)
  | RSeq (r1 r2 : regex)
  | RStar (greedy : bool) (r : regex)   (* r* (greedy) or r*? (lazy) *)
  | RGroup (r : regex)
  | REps.                        (* the empty pattern *)

Definition capture := option (list ascii).
Definition mstate := (list ascii * capture)%type.

(** RepeatMatcher of ECMAScript with min 0 and max infinity: an iteration
    that consumes nothing is refused; [n] bounds the iterations and is
    never reached since each iteration consumes input. *)
Fixpoint star_go (m : list ascii -> capture -> list mstate) (greedy : bool)
    (n : nat) (s : list ascii) (c : capture) : list mstate :=
  match n with
  | O => [(s, c)]
  | S n' =>
      let more :=
        flat_map (fun p : mstate =>
                    if Nat.ltb (List.length (fst p)) (List.length s)
                    then star_go m greedy n' (fst p) (snd p) else [])
                 (m s c) in
      if greedy then more ++ [(s, c)] else (s, c) :: more
  end.

Fixpoint mt (r : regex) (s : list ascii) (c : capture) : list mstate :=
  match r with
  | RChar a =>
      match s with
      | b :: s' => if Ascii.eqb a b then [(s', c)] else []
      | [] => []
      end
  | RAny =>
      match s with
      | b :: s' => if is_line_terminator b then [] else [(s', c)]
      | [] => []
      end
  | RDigit =>
      match s with
      | b :: s' => if is_digit b then [(s', c)] else []
      | [] => []
      end
  | RSeq r1 r2 => flat_map (fun p : mstate => mt r2 (fst p) (snd p)) (mt r1 s c)
  | RStar g r1 => star_go (mt r1) g (S (List.length s)) s c
  | RGroup r1 =>
      map (fun p : mstate =>
             (fst p, Some (firstn (List.length s - List.length (fst p)) s)))
          (mt r1 s c)
  | REps => [(s, c)]
  end.

Definition RPlus (g : bool) (r : regex) : regex := RSeq r (RStar g r).

(** A literal string as a sequence of characters, followed by [k]. *)
Fixpoint RLit (w : string) (k : regex) : regex :=
  match w with
  | EmptyString => k
  | String a w' => RSeq (RChar a) (RLit w' k)
  end.

(** [str.match(re)] for a non-global [re]: the match found at the least
    start index, and its group 1; [None] is JavaScript's [null]. *)
Fixpoint search (r : regex) (s : list ascii) : option capture :=
  match mt r s None with
  | p :: _ => Some (snd p)
  | [] =>
      match s with
      | [] => None
      | _ :: s' => search r s'
      end
  end.

Definition js_match (r : regex) (line : string) : option capture :=
  search r (list_ascii_of_string line).

(** [match[1]] as a string ([undefined] is [None]). *)
Definition group1 (m : capture) : option string :=
  option_map string_of_list_ascii m.

Definition nbsp_s : string := "&nbsp;".
Definition nbsp4_s : string := nbsp_s ++ nbsp_s ++ nbsp_s ++ nbsp_s.

(** [/<td style=Qfont-size:.+>(.+?)<\/td>/] (Q is the double quote) *)
Definition itemRegex : regex :=
  RLit ("<td style=" ++ dq_s ++ "font-size:")
    (RSeq (RPlus true RAny)
      (RSeq (RChar ">")
        (RSeq (RGroup (RPlus false RAny))
          (RLit "</td>" REps)))).

(** [/<td style=Qtext-align:right;.+>(\d+,\d\d)&nbsp;<\/td>/] (Q is the double quote) *)
Definition priceRegex : regex :=
  RLit ("<td style=" ++ dq_s ++ "text-align:right;")
    (RSeq (RPlus true RAny)
      (RSeq (RChar ">")
        (RSeq (RGroup (RSeq (RPlus true RDigit)
                        (RSeq (RChar ",") (RSeq RDigit RDigit))))
          (RLit "&nbsp;</td>" REps)))).

(** [/<td style=Qfont-size:.+>&nbsp;&nbsp;&nbsp;&nbsp;(.*?)<\/td>/] (Q is the double quote) *)
Definition itemDetailsRegex : regex :=
  RLit ("<td style=" ++ dq_s ++ "font-size:")
    (RSeq (RPlus true RAny)
      (RSeq (RChar ">")
        (RLit nbsp4_s
          (RSeq (RGroup (RStar false RAny))
            (RLit "</td>" REps))))).

(** [/<hr .*\/><\/td>/] *)
Definition rowDividerRegex : regex :=
  RLit "<hr " (RSeq (RStar true RAny) (RLit "/></td>" REps)).

(* ------------------------------------------------------------------ *)
(** ** Numbers: [parseFloat] and [Number.prototype.toFixed(2)] *)

Open Scope Z_scope.

(** A JavaScript Number: an IEEE-754 binary64 value. *)
Definition Number := spec_float.
Definition b64_div : Number -> Number -> Number := SFdiv 53 1024.

Fixpoint span_digits (l : list ascii) : list ascii * list ascii :=
  match l with
  | a :: l' =>
      if is_digit a then let '(d, r) := span_digits l' in (a :: d, r) else ([], l)
  | [] => ([], [])
  end.

Definition digit_cons (a : ascii) (u : Decimal.uint) : Decimal.uint :=
  match (nat_of_ascii a - 48)%nat with
  | 0%nat => Decimal.D0 u | 1%nat => Decimal.D1 u | 2%nat => Decimal.D2 u
  | 3%nat => Decimal.D3 u | 4%nat => Decimal.D4 u | 5%nat => Decimal.D5 u
  | 6%nat => Decimal.D6 u | 7%nat => Decimal.D7 u | 8%nat => Decimal.D8 u
  | _ => Decimal.D9 u
  end.

(** The decimal numeral written by a list of digit characters. *)
Fixpoint uint_of_digits (l : list ascii) : Decimal.uint :=
  match l with
  | [] => Decimal.Nil
  | a :: l' => digit_cons a (uint_of_digits l')
  end.

(** The binary64 value nearest to [n / 10^k] (ties to even): SFdiv on the
    exact operands [n] and [10^k] rounds their exact quotient once. *)
Definition decimal_to_number (n : N) (k : nat) : Number :=
  match n with
  | N0 => S754_zero false
  | Npos m => b64_div (S754_finite false m 0)
                      (S754_finite false (Z.to_pos (10 ^ Z.of_nat k)) 0)
  end.

(** [parseFloat] on the unsigned decimal literals [digits], [digits.digits]
    and [.digits] (after leading white space; the rest of the string is
    ignored, and no digit at all gives NaN).  Signs, exponents and
    [Infinity] are not modelled: the code only parses [D.DD] strings. *)
Definition parseFloat (s : string) : Number :=
  let l := trim_start_l (list_ascii_of_string s) in
  let '(ip, r) := span_digits l in
  let fp := match r with
            | a :: r' => if Ascii.eqb a "." then fst (span_digits r') else []
            | [] => []
            end in
  match ip, fp with
  | [], [] => S754_nan
  | _, _ => decimal_to_number (N.of_uint (uint_of_digits (ip ++ fp)))
                              (List.length fp)
  end.

(** [n] of the [toFixed] algorithm for [f = 2] and [x = m * 2^e]: the
    integer for which [n / 100 - x] is closest to zero, the larger one on
    a tie. *)
Definition fixed2_n (m : positive) (e : Z) : Z :=
  if 0 <=? e then Zpos m * 100 * 2 ^ e
  else
    let d := 2 ^ (- e) in
    let q := (Zpos m * 100) / d in
    let r := (Zpos m * 100) mod d in
    if d <=? 2 * r then q + 1 else q.

(** The digits of [n], with the decimal point before the last two
    (left-padded with zeros to three digits first). *)
Definition fixed2_digits (n : Z) : string :=
  let m := NilEmpty.string_of_uint (N.to_uint (Z.to_N n)) in
  let k := String.length m in
  let m := if (k <=? 2)%nat then
             (if (k =? 1)%nat then "00" else "0") ++ m else m in
  let k := String.length m in
  substring 0 (k - 2) m ++ "." ++ substring (k - 2) 2 m.

(** [x.toFixed(2)]; [None] stands for the branch [x >= 10^21], where the
    result is [Number::toString(x)] (exponent notation), not modelled. *)
Definition toFixed2 (x : Number) : option string :=
  match x with
  | S754_nan => Some "NaN"
  | S754_infinity false => Some "Infinity"
  | S754_infinity true => Some "-Infinity"
  | S754_zero _ => Some "0.00"
  | S754_finite sg m e =>
      let big := if 0 <=? e then 10 ^ 21 <=? Zpos m * 2 ^ e
                 else 10 ^ 21 * 2 ^ (- e) <=? Zpos m in
      if big then None
      else Some ((if sg then "-" else "") ++ fixed2_digits (fixed2_n m e))
  end.

Close Scope Z_scope.

(* ------------------------------------------------------------------ *)
(** ** Line items and the scanner of [extractLineItems] *)

Record LineItem : Type := mkLineItem {
  description : option string;
  totalPrice : option Number;
  details : option string
}.

Definition emptyLineItem : LineItem := mkLineItem None None None.

(** JavaScript truthiness of a field: [null], [""], [0] and NaN are falsy. *)
Definition truthy_str (o : option string) : bool :=
  match o with
  | Some s => negb (String.eqb s "")
  | None => false
  end.

Definition truthy_num (o : option Number) : bool :=
  match o with
  | Some (S754_zero _) | Some S754_nan | None => false
  | Some _ => true
  end.

(** [currentLineItem.description || currentLineItem.totalPrice ||
    currentLineItem.details] *)
Definition has_data (it : LineItem) : bool :=
  truthy_str (description it) || truthy_num (totalPrice it)
  || truthy_str (details it).

Record ScanState : Type := mkScanState {
  currentLineItem : LineItem;
  searchItem : bool;
  searchPrice : bool;
  searchDetail : bool
}.

Definition initScan : ScanState := mkScanState emptyLineItem false false false.

(** The body of the [for (const line of lineItemsFilteredArray)] loop: the
    new state and the item pushed to [lineItems], if any. *)
Definition scan_step (st : ScanState) (line : string)
    : ScanState * option LineItem :=
  let cur := currentLineItem st in
  match js_match rowDividerRegex line with
  | Some _ =>
      (mkScanState emptyLineItem true false false,
       if has_data cur then Some cur else None)
  | None =>
      match (if searchItem st then js_match itemRegex line else None) with
      | Some m =>
          (mkScanState
             (mkLineItem (option_map js_trim (group1 m))
                         (totalPrice cur) (details cur))
             false true (searchDetail st), None)
      | None =>
          match (if searchPrice st then js_match priceRegex line else None) with
          | Some m =>
              let priceStr :=
                option_map (fun g => js_replace "," "." (js_trim g)) (group1 m) in
              (mkScanState
                 (mkLineItem (description cur)
                             (option_map parseFloat priceStr) (details cur))
                 (searchItem st) false true, None)
          | None =>
              match (if searchDetail st then js_match itemDetailsRegex line
                     else None) with
              | Some m =>
                  (mkScanState
                     (mkLineItem (description cur) (totalPrice cur)
                                 (option_map js_trim (group1 m)))
                     (searchItem st) (searchPrice st) false, None)
              | None => (st, None)
              end
          end
      end
  end.

Definition push_opt (l : list LineItem) (o : option LineItem) : list LineItem :=
  match o with
  | Some x => l ++ [x]
  | None => l
  end.

Fixpoint scan_lines (st : ScanState) (lineItems : list LineItem)
    (lines : list string) : ScanState * list LineItem :=
  match lines with
  | [] => (st, lineItems)
  | line :: rest =>
      let '(st', o) := scan_step st line in
      scan_lines st' (push_opt lineItems o) rest
  end.

(** The loop and the final push, on the filtered lines. *)
Definition scanLineItems (lines : list string) : list LineItem :=
  let '(st, lineItems) := scan_lines initScan [] lines in
  if has_data (currentLineItem st) then lineItems ++ [currentLineItem st]
  else lineItems.

Definition stringsToRemove : list string :=
  [""; "<tr>"; "</tr>"; "<td>&nbsp;</td>"; "<td></td>"].

Definition extractLineItemsArray (lineItemsRaw : string) : list string :=
  filter (fun line => negb (js_includes stringsToRemove (js_trim line)))
         (js_split nl_s lineItemsRaw).

Definition extractLineItems (lineItemsRaw : string) : list LineItem :=
  scanLineItems (extractLineItemsArray lineItemsRaw).

Definition extractStoreAddress (storeAddressRaw : string) : string :=
  js_join ", " (map (fun s => js_trim (js_replace "<br>" "" s))
                    (js_slice 1 3 (js_split nl_s storeAddressRaw))).

(* ------------------------------------------------------------------ *)
(** ** Segmentation and the top-level functions *)

(** The error a JavaScript caller can catch: here only the [TypeError] of
    calling [.split] on [undefined]. *)
Inductive JsError : Type := TypeError.

Definition Result (A : Type) : Type := (A + JsError)%type.

(** [extractStoreAndPurchaseString] (unnamed/part_000): [arr[i]] is
    [nth_error arr i]; [undefined.split(...)] throws. *)
Definition extractStoreAndPurchaseString (emailBody startString middleString
    endString : string) : Result (option string * option string) :=
  match nth_error (js_split startString emailBody) 1 with
  | None => inr TypeError
  | Some afterStart =>
      match nth_error (js_split endString afterStart) 0 with
      | None => inr TypeError
      | Some storeAndPurchaseString =>
          let arr := js_split middleString storeAndPurchaseString in
          inl (nth_error arr 0, nth_error arr 1)
      end
  end.

Definition receiptData : Type := (string * list LineItem)%type.

(** [extractLineItems(lineItemsRaw)] with [lineItemsRaw] possibly
    [undefined]: [extractLineItemsArray] then calls [undefined.split]. *)
Definition extractLineItems_js (lineItemsRaw : option string)
    : Result (list LineItem) :=
  match lineItemsRaw with
  | Some raw => inl (extractLineItems raw)
  | None => inr TypeError
  end.

Definition extractStoreAddress_js (storeAddressRaw : option string)
    : Result string :=
  match storeAddressRaw with
  | Some raw => inl (extractStoreAddress raw)
  | None => inr TypeError
  end.

Module Gas.
(** [extractNettoReceiptData] of unnamed/part_000. *)
Definition extractNettoReceiptData (emailBody : string) : Result receiptData :=
  match extractStoreAndPurchaseString emailBody "Filiale:"
          "<!-- ZAHLUNGEN -->" "<!-- SUMME -->" with
  | inr e => inr e
  | inl (storeAddressRaw, lineItemsRaw) =>
      match extractStoreAddress_js storeAddressRaw with
      | inr e => inr e
      | inl storeAddress =>
          match extractLineItems_js lineItemsRaw with
          | inr e => inr e
          | inl lineItems => inl (storeAddress, lineItems)
          end
      end
  end.
End Gas.

Module Src.
(** [extractNettoReceiptData] of src/extractNettoReceiptData.js, where the
    segmentation is written inline. *)
Definition extractNettoReceiptData (emailBody : string) : Result receiptData :=
  match nth_error (js_split "Filiale:" emailBody) 1 with
  | None => inr TypeError
  | Some afterStart =>
      match nth_error (js_split "<!-- ZAHLUNGEN -->" afterStart) 0 with
      | None => inr TypeError
      | Some storeAndPurchaseString =>
          let arr := js_split "<!-- WARENKORB -->" storeAndPurchaseString in
          match nth_error arr 1 with
          | None => inr TypeError
          | Some afterMiddle =>
              match nth_error (js_split "<!-- SUMME -->" afterMiddle) 0,
                    nth_error arr 0 with
              | Some lineItemsRaw, Some storeAddressRaw =>
                  inl (extractStoreAddress storeAddressRaw,
                       extractLineItems lineItemsRaw)
              | _, _ => inr TypeError
              end
          end
      end
  end.
End Src.

(* ------------------------------------------------------------------ *)
(** ** Specification-side notions *)

(** A filtered line matching [rowDividerRegex]. *)
Definition is_divider (line : string) : bool :=
  match js_match rowDividerRegex line with
  | Some _ => true
  | None => false
  end.

Definition count_dividers (lines : list string) : nat :=
  List.length (filter is_divider lines).

(** The scanner state right after a divider. *)
Definition resetScan : ScanState := mkScanState emptyLineItem true false false.

(** The lines before the first divider, then the lines after each divider
    (the divider lines themselves removed). *)
Fixpoint split_blocks (lines : list string) : list (list string) :=
  match lines with
  | [] => [[]]
  | l :: rest =>
      let bs := split_blocks rest in
      if is_divider l then [] :: bs
      else match bs with
           | b :: bs' => (l :: b) :: bs'
           | [] => [[l]]
           end
  end.

(** The in-progress item reached by scanning a block from a state. *)
Definition block_item (st : ScanState) (b : list string) : LineItem :=
  currentLineItem (fst (scan_lines st [] b)).

(** The in-progress item at every flush point, in input order: at each
    divider and at the end of the input. *)
Definition flush_trace (st : ScanState) (lines : list string) : list LineItem :=
  match split_blocks lines with
  | [] => []
  | b0 :: bs => block_item st b0 :: map (block_item resetScan) bs
  end.

(** JavaScript's [!== null] on the three fields. *)
Definition some_field_non_null (it : LineItem) : bool :=
  match description it, totalPrice it, details it with
  | None, None, None => false
  | _, _, _ => true
  end.

(** [sep] occurs in [s]. *)
Definition occurs (sep s : string) : Prop := exists p q, s = p ++ sep ++ q.

(** The length of the longest prefix without line terminator: how far [.]
    can reach. *)
Fixpoint nt_len (l : list ascii) : nat :=
  match l with
  | [] => 0
  | a :: l' => if is_line_terminator a then 0 else S (nt_len l')
  end.



(** The integer part of a price as written on a receipt: a nonempty run of
    digits without a leading zero, or the single digit [0]. *)
Definition canonical_int (D : list ascii) : bool :=
  forallb is_digit D &&
  match D with
  | [] => false
  | ["0"%char] => true
  | h :: _ => negb (Ascii.eqb h "0")
  end.



(* ------------------------------------------------------------------ *)
(** ** Sample receipt lines (from the repository's tests) *)

Definition unlines (ls : list string) : string := js_join nl_s ls.

Definition indent : string := "              ".

Definition descLine : string :=
  indent ++ "<td style=" ++ dq_s ++ "font-size:12px;" ++ dq_s ++ ">Milch 3.5%</td>".
Definition priceLine : string :=
  indent ++ "<td style=" ++ dq_s ++ "text-align:right;" ++ dq_s ++ ">1,29&nbsp;</td>".
Definition detailsLine : string :=
  indent ++ "<td style=" ++ dq_s ++ "font-size:10px;" ++ dq_s ++ ">"
         ++ nbsp4_s ++ "1 Liter</td>".
Definition dividerLine : string :=
  "            <tr><td colspan=" ++ dq_s ++ "2" ++ dq_s ++ "><hr /></td></tr>".
Definition desc2Line : string :=
  indent ++ "<td style=" ++ dq_s ++ "font-size:12px;" ++ dq_s ++ ">Brot</td>".
Definition price2Line : string :=
  indent ++ "<td style=" ++ dq_s ++ "text-align:right;" ++ dq_s ++ ">2,49&nbsp;</td>".
Definition details2Line : string :=
  indent ++ "<td style=" ++ dq_s ++ "font-size:10px;" ++ dq_s ++ ">"
         ++ nbsp4_s ++ "500g</td>".
(** A description cell holding only a space: its trimmed text is [""]. *)
Definition blankDescLine : string :=
  indent ++ "<td style=" ++ dq_s ++ "font-size:12px;" ++ dq_s ++ "> </td>".

(** One item block as the tests write it: description, price and details
    rows inside a table, with no divider row. *)
Definition oneItemBlock : string :=
  unlines ["          <table>"; "            <tr>"; descLine; "            </tr>";
           "            <tr>"; priceLine; "            </tr>";
           "            <tr>"; detailsLine; "            </tr>";
           "          </table>"; "          "].

(** The e-mail body of [testBasicReceipt]. *)
Definition basicReceiptBody : string :=
  unlines ["      <html>"; "        <body>"; "          Filiale:";
           "          <br>Netto City-Filiale";
           "          <br>Hauptstr. 123, 12345 Berlin";
           "          <!-- WARENKORB -->"; "          <table>";
           "            <tr>"; descLine; "            </tr>";
           "            <tr>"; priceLine; "            </tr>";
           "            <tr>"; detailsLine; "            </tr>";
           dividerLine;
           "            <tr>"; desc2Line; "            </tr>";
           "            <tr>"; price2Line; "            </tr>";
           "            <tr>"; details2Line; "            </tr>";
           "          </table>"; "          <!-- SUMME -->";
           "          <table>"; "            <tr>";
           "              <td>Gesamtbetrag:</td>";
           "              <td>3,78&nbsp;</td>"; "            </tr>";
           "          </table>"; "          <!-- ZAHLUNGEN -->";
           "        </body>"; "      </html>"; "    "].

(** The binary64 literals [1.29] and [2.49]. *)
Definition num_1_29 : Number := decimal_to_number 129 2.
Definition num_2_49 : Number := decimal_to_number 249 2.

Definition milchItem : LineItem :=
  mkLineItem (Some "Milch 3.5%") (Some num_1_29) (Some "1 Liter").
Definition brotItem : LineItem :=
  mkLineItem (Some "Brot") (Some num_2_49) (Some "500g").

(* ------------------------------------------------------------------ *)
(** ** The spreadsheet loader (unnamed/part_001 and unnamed/part_002)

    The two files hold the same loader.  One message is processed against
    the values the script reads from the [stores] and [purchases] sheets
    ([getDataRange().getValues()], read before any write to that sheet);
    the effects are the rows appended with [appendRow] and the call to
    [markRead], in order.  [Logger.log] calls are left out. *)

(** The JavaScript values the loader reads from cells and writes to them;
    [JDate t] is a [Date] object with time value [t]. *)
Inductive JsVal : Type :=
  | JUndefined
  | JNull
  | JBool (b : bool)
  | JNum (x : Number)
  | JStr (s : string)
  | JDate (t : Z).

(** [x === y]; two [Date] values read from the sheets are distinct
    objects, so never identical. *)
Definition js_strict_eq (x y : JsVal) : bool :=
  match x, y with
  | JUndefined, JUndefined | JNull, JNull => true
  | JBool a, JBool b => Bool.eqb a b
  | JNum a, JNum b => SFeqb a b
  | JStr a, JStr b => String.eqb a b
  | _, _ => false
  end.

(** JavaScript truthiness. *)
Definition js_truthy (v : JsVal) : bool :=
  match v with
  | JUndefined | JNull => false
  | JBool b => b
  | JNum x => truthy_num (Some x)
  | JStr s => negb (String.eqb s "")
  | JDate _ => true
  end.

(** The result of [getValues()]: rows of cells. *)
Definition Grid : Type := list (list JsVal).

(** [row[k]] *)
Definition cell (row : list JsVal) (k : nat) : JsVal := nth k row JUndefined.

(** [arr.indexOf(x)]; [None] is [-1]. *)
Fixpoint js_indexOf (l : list JsVal) (x : JsVal) : option nat :=
  match l with
  | [] => None
  | y :: l' => if js_strict_eq y x then Some 0 else option_map S (js_indexOf l' x)
  end.

Definition purchaseIdColumnIndex : nat := 0.
Definition dateColumnIndex : nat := 2.
Definition totalPriceColumnIndex : nat := 3.
Definition storeIdColumnIndex : nat := 4.

(** [getLastRowData(sheetData)] is [sheetData[sheetData.length - 1]];
    [None] is [undefined]. *)
Definition getLastRowData (sheetData : Grid) : option (list JsVal) :=
  nth_error sheetData (List.length sheetData - 1).

(** What the loader may throw: a [TypeError] (a property of [undefined])
    or a [ReferenceError] (an undeclared variable). *)
Inductive LoadError : Type := LTypeError | LReferenceError.

Inductive Effect : Type :=
  | AppendStores (row : list JsVal)
  | AppendPurchases (row : list JsVal)
  | AppendPriceLog (row : list JsVal)
  | MarkRead.

(** A computation of the loader: the effects it performs, in order, and
    its result or the error it throws (the effects before the throw stay
    done). *)
Definition LoadM (A : Type) : Type := (list Effect * (A + LoadError))%type.

Definition ret {A} (x : A) : LoadM A := ([], inl x).
Definition throw {A} (e : LoadError) : LoadM A := ([], inr e).
Definition emit (e : Effect) : LoadM unit := ([e], inl tt).
Definition bind {A B} (m : LoadM A) (k : A -> LoadM B) : LoadM B :=
  match m with
  | (w, inl x) => let '(w', r) := k x in ((w ++ w')%list, r)
  | (w, inr e) => (w, inr e)
  end.

Notation "x <- m ;; k" := (bind m (fun x => k))
  (at level 61, m at next level, right associativity).

Fixpoint forEach {A} (l : list A) (f : A -> LoadM unit) : LoadM unit :=
  match l with
  | [] => ret tt
  | x :: l' => _ <- f x ;; forEach l' f
  end.

(** [getStoreId(storeName, data)], with [storesData] the values of the
    [stores] sheet; [data] is [{storeAddress, lineItems}]. *)
Definition getStoreId (storesData : Grid) (storeName : string)
    (data : receiptData) : LoadM JsVal :=
  let storeAddresses := skipn 1 (map (fun row => cell row 2) storesData) in
  match js_indexOf storeAddresses (JStr (fst data)) with
  | None =>
      _ <- emit (AppendStores [JNull; JStr storeName; JStr (fst data)]) ;;
      match getLastRowData storesData with
      | Some row => ret (cell row 0)
      | None => throw LTypeError
      end
  | Some existingStoreIndex =>
      match nth_error storesData (existingStoreIndex + 1) with
      | Some row => ret (cell row 0)
      | None => throw LTypeError
      end
  end.

(** The row of [priceLog] written for one line item. *)
Definition opt_str (o : option string) : JsVal :=
  match o with Some s => JStr s | None => JNull end.
Definition opt_num (o : option Number) : JsVal :=
  match o with Some x => JNum x | None => JNull end.

Definition priceLogRow (purchaseId : JsVal) (item : LineItem) : list JsVal :=
  [opt_str (description item); opt_str (details item); JNull; JNull; JNull;
   JStr "EUR"; opt_num (totalPrice item); purchaseId].

(** [loadLineItems(purchaseId, data)] *)
Definition loadLineItems (purchaseId : JsVal) (data : receiptData) : LoadM unit :=
  forEach (snd data) (fun item => emit (AppendPriceLog (priceLogRow purchaseId item))).

(** [extractReceiptData(body)] over the [extractNettoReceiptData] of
    src/extractNettoReceiptData.js (the one part_001 requires, and the one
    part_002 repeats): a successful extraction is an object with two keys,
    so the [!data || Object.keys(data).length === 0] test never holds;
    [None] is [null]. *)
Definition extractReceiptData (body : string) : option receiptData :=
  match Src.extractNettoReceiptData body with
  | inl data => Some data
  | inr _ => None
  end.

Record Sheets : Type := mkSheets {
  storesValues : Grid;
  purchasesValues : Grid
}.

Record Message : Type := mkMessage {
  getDate : JsVal;
  getSubject : string;
  getBody : string
}.

Section Loader.

(** [new Date(v).toString()], which depends on the script's time zone;
    for a [Date] [d], [d.toString()] is [new Date(d).toString()]. *)
Variable dateString : JsVal -> string.

(** The loop of [findMatchingPurchaseId] from row [i] on. *)
Fixpoint findMatchingPurchaseId_from (purchasesData : Grid) (storeId purchaseDate : JsVal)
    (i fuel : nat) : JsVal :=
  match fuel with
  | O => JNull
  | S f =>
      if Nat.ltb i (List.length purchasesData) then
        let row := nth i purchasesData [] in
        let isMatchingStore := js_strict_eq (cell row storeIdColumnIndex) storeId in
        let isMatchingDate :=
          String.eqb (dateString (cell row dateColumnIndex)) (dateString purchaseDate) in
        let isMatchingPrice := true in
        if isMatchingStore && isMatchingDate && isMatchingPrice
        then cell row purchaseIdColumnIndex
        else findMatchingPurchaseId_from purchasesData storeId purchaseDate (S i) f
      else JNull
  end.

(** [findMatchingPurchaseId(purchasesData, storeId, purchaseDate, totalPrice)]:
    the loop [for (let i = 1; i < purchasesData.length; i++)]. *)
Definition findMatchingPurchaseId (purchasesData : Grid)
    (storeId purchaseDate totalPrice : JsVal) : JsVal :=
  findMatchingPurchaseId_from purchasesData storeId purchaseDate 1
    (List.length purchasesData).

(** [getPurchaseId(storeId, date, totalPrice)], with [purchasesData] the
    values of the [purchases] sheet ([getPurchaseData()]).  When no truthy
    id is found, [purchasesSheet.appendRow(...)] names [purchasesSheet],
    declared only inside [getPurchaseData]: a [ReferenceError] is thrown
    before anything is appended. *)
Definition getPurchaseId (purchasesData : Grid) (storeId date totalPrice : JsVal)
    : LoadM JsVal :=
  let purchaseDate := date in
  let purchaseId :=
    findMatchingPurchaseId purchasesData storeId purchaseDate (JNum (S754_zero false)) in
  if js_truthy purchaseId then ret purchaseId
  else throw LReferenceError.

(** [loadReceiptDataToSheet(data, storeName, date, totalPrice)] *)
Definition loadReceiptDataToSheet (sh : Sheets) (data : receiptData) (storeName : string)
    (date totalPrice : JsVal) : LoadM unit :=
  storeId <- getStoreId (storesValues sh) storeName data ;;
  purchaseId <- getPurchaseId (purchasesValues sh) storeId date totalPrice ;;
  loadLineItems purchaseId data.

(** [processMessage(message)]: everything thrown is caught and logged; the
    effects done before the throw remain.  [loadReceiptDataToSheet] is
    called with three arguments, so [totalPrice] is [undefined]. *)
Definition processMessage (sh : Sheets) (message : Message) : list Effect :=
  match extractReceiptData (getBody message) with
  | Some data =>
      fst (_ <- loadReceiptDataToSheet sh data "Netto Marken-Discount"
                  (getDate message) JUndefined ;;
           emit MarkRead)
  | None => []
  end.

(** The test of [findMatchingPurchaseId] on one row ([isMatchingPrice] is
    [true]). *)
Definition purchaseRowMatches (storeId purchaseDate : JsVal) (row : list JsVal) : bool :=
  js_strict_eq (cell row storeIdColumnIndex) storeId &&
  String.eqb (dateString (cell row dateColumnIndex)) (dateString purchaseDate).

End Loader.

(** The test of [storeAddresses.indexOf(data.storeAddress)] on one row. *)
Definition storeRowMatches (storeAddress : string) (row : list JsVal) : bool :=
  js_strict_eq (cell row 2) (JStr storeAddress).

(** [s.includes(sep)] *)
Fixpoint js_str_includes (sep s : string) : bool :=
  starts_with sep s ||
  match s with
  | EmptyString => false
  | String _ s' => js_str_includes sep s'
  end.

(** [sep] has no border: no nonempty proper prefix of [sep] is also a
    suffix of it, so two occurrences of [sep] never overlap. *)
Definition no_border (sep : string) : Prop :=
  forall u v w, sep = u ++ v -> sep = w ++ u -> u <> "" -> v <> "" -> w <> "" -> False.

(** The value [parseFloat] gives to a price [D,ab] once the comma is
    replaced by a point: [Dab / 100], rounded to binary64. *)
Definition price_value (x : Number) : Prop :=
  exists D a b, D <> [] /\ forallb is_digit D = true /\ is_digit a = true /\
    is_digit b = true /\
    x = decimal_to_number (N.of_uint (uint_of_digits (D ++ [a; b])%list)) 2.

(** A line item as the scanner fills it: trimmed texts and a price read
    from a [D,DD] cell. *)
Definition scanned_item (it : LineItem) : Prop :=
  (forall d, description it = Some d -> js_trim d = d) /\
  (forall x, totalPrice it = Some x -> price_value x) /\
  (forall d, details it = Some d -> js_trim d = d).

(* ------------------------------------------------------------------ *)
(** ** Sample data for the loader *)

(** A rendering of [new Date(v).toString()] for the examples: a [Date]
    shows its time value. *)
Definition sampleDateString (v : JsVal) : string :=
  match v with
  | JDate t => "Date(" ++ NilEmpty.string_of_int (Z.to_int t) ++ ")"
  | JStr s => s
  | _ => "Invalid Date"
  end.

Definition sampleAddress : string := "Netto City-Filiale, Hauptstr. 123, 12345 Berlin".
Definition sampleStoreId : JsVal := JNum (S754_finite false 7 0).

Definition storesHeader : list JsVal := [JStr "storeId"; JStr "name"; JStr "address"].
Definition purchasesHeader : list JsVal :=
  [JStr "purchaseId"; JStr "receiptId"; JStr "date"; JStr "totalPrice"; JStr "storeId"].

(** The stores sheet with the store of [basicReceiptBody]. *)
Definition sampleStores : Grid :=
  [storesHeader; [sampleStoreId; JStr "Netto Marken-Discount"; JStr sampleAddress]].

Definition sampleMessage : Message := mkMessage (JDate 0) "Ihr Einkauf" basicReceiptBody.

Definition sampleData : receiptData := (sampleAddress, [brotItem]).
Definition samplePurchaseRow : list JsVal := [JStr "P1"; JNull; JDate 0; JNull; sampleStoreId].

(** The purchases sheet with only its header row. *)
Definition sheetsNoPurchase : Sheets := mkSheets sampleStores [purchasesHeader].
Definition sheetsWithPurchase : Sheets := mkSheets sampleStores [purchasesHeader; samplePurchaseRow].

(** The line-items block of one item after a divider row. *)
Definition sampleItemsRaw : string := unlines [dividerLine; descLine; priceLine; detailsLine].

(* ------------------------------------------------------------------ *)
(** * Proofs *)

(** ** Address extraction *)

(** Claim C7: the address extractor on the raw text
    ["\nNetto City-Filiale\n<br>Hauptstr. 123, 12345 Berlin\n<br>extra"]
    keeps the 2nd and 3rd lines, strips [<br>], trims and joins them with
    [", "], giving ["Netto City-Filiale, Hauptstr. 123, 12345 Berlin"]. *)
Theorem extractStoreAddress_example :
  extractStoreAddress
    (nl_s ++ "Netto City-Filiale" ++ nl_s ++ "<br>Hauptstr. 123, 12345 Berlin"
          ++ nl_s ++ "<br>extra")
  = "Netto City-Filiale, Hauptstr. 123, 12345 Berlin".
Proof. vm_compute. reflexivity. Qed.

(** Claim C8: when the raw address has fewer than three newline-separated
    lines, [slice(1, 3)] keeps fewer than two of them and the extractor
    returns a string: the cleaned second line if there are two lines, and
    the empty string if there is only one. *)
Theorem extractStoreAddress_short (raw : string) :
  List.length (js_split nl_s raw) < 3 ->
  List.length (js_slice 1 3 (js_split nl_s raw)) < 2 /\
  (List.length (js_slice 1 3 (js_split nl_s raw)) = 0 ->
     extractStoreAddress raw = "") /\
  (forall l2, js_slice 1 3 (js_split nl_s raw) = [l2] ->
     extractStoreAddress raw = js_trim (js_replace "<br>" "" l2)).
Proof.
  unfold extractStoreAddress, js_slice.
  destruct (js_split nl_s raw) as [|l1 [|l2 [|l3 rest]]]; simpl; intros H.
  - repeat split; auto; intros ? [=].
  - repeat split; auto; intros ? [=].
  - repeat split; auto; [discriminate | intros ? [= <-]; reflexivity].
  - lia.
Qed.

(** ** The scanner *)

Lemma scan_step_divider (st : ScanState) (line : string) :
  is_divider line = true ->
  scan_step st line =
    (resetScan, if has_data (currentLineItem st)
                then Some (currentLineItem st) else None).
Proof.
  unfold is_divider, scan_step. destruct (js_match rowDividerRegex line);
    [reflexivity | discriminate].
Qed.

Lemma scan_step_not_divider (st : ScanState) (line : string) :
  is_divider line = false -> snd (scan_step st line) = None.
Proof.
  unfold is_divider, scan_step. destruct (js_match rowDividerRegex line); [congruence|].
  intros _. destruct (if searchItem st then _ else _); [reflexivity|].
  destruct (if searchPrice st then _ else _); [reflexivity|].
  destruct (if searchDetail st then _ else _); reflexivity.
Qed.

(** In the idle state (no search flag set) a line that is not a divider
    changes nothing. *)
Lemma scan_step_idle (line : string) :
  is_divider line = false -> scan_step initScan line = (initScan, None).
Proof.
  unfold is_divider, scan_step. destruct (js_match rowDividerRegex line); [congruence|].
  reflexivity.
Qed.

Lemma scan_lines_app (st : ScanState) (acc : list LineItem) (l1 l2 : list string) :
  scan_lines st acc (l1 ++ l2) =
  let '(st', acc') := scan_lines st acc l1 in scan_lines st' acc' l2.
Proof.
  revert st acc. induction l1 as [|l l1 IH]; intros st acc; simpl; [reflexivity|].
  destruct (scan_step st l) as [st1 o]. apply IH.
Qed.

Lemma scan_lines_idle (pre : list string) (acc : list LineItem) :
  (forall l, In l pre -> is_divider l = false) ->
  scan_lines initScan acc pre = (initScan, acc).
Proof.
  revert acc. induction pre as [|l pre IH]; intros acc H; simpl; [reflexivity|].
  rewrite scan_step_idle by (apply H; left; reflexivity).
  apply IH. intros l' Hl'. apply H. right. exact Hl'.
Qed.

(** Scanning a block (no divider) pushes nothing. *)
Lemma scan_lines_block (st : ScanState) (acc : list LineItem) (b : list string) :
  (forall l, In l b -> is_divider l = false) ->
  snd (scan_lines st acc b) = acc.
Proof.
  revert st acc. induction b as [|l b IH]; intros st acc H; simpl; [reflexivity|].
  pose proof (scan_step_not_divider st l (H l (or_introl eq_refl))) as Hn.
  destruct (scan_step st l) as [st1 o]. simpl in Hn. subst o. simpl.
  apply IH. intros l' Hl'. apply H. right. exact Hl'.
Qed.

Lemma split_blocks_cons (lines : list string) :
  exists b0 bs, split_blocks lines = b0 :: bs.
Proof.
  destruct lines as [|l rest]; simpl; [eauto|].
  destruct (is_divider l); [eauto|]. destruct (split_blocks rest); eauto.
Qed.

(** The central invariant of the loop: what has been pushed, followed by
    the final push, is what was pushed before followed by the in-progress
    items at the flush points that carry data. *)
Lemma scan_lines_flush (st : ScanState) (acc : list LineItem) (lines : list string) :
  let '(st', acc') := scan_lines st acc lines in
  (acc' ++ (if has_data (currentLineItem st') then [currentLineItem st'] else [])
   = acc ++ filter has_data (flush_trace st lines))%list.
Proof.
  revert st acc. induction lines as [|l rest IH]; intros st acc.
  - simpl. unfold flush_trace, block_item. simpl.
    destruct (has_data (currentLineItem st)); reflexivity.
  - simpl. unfold flush_trace. simpl.
    destruct (is_divider l) eqn:Hd.
    + rewrite (scan_step_divider st l Hd).
      specialize (IH resetScan (push_opt acc (if has_data (currentLineItem st)
                   then Some (currentLineItem st) else None))).
      destruct (scan_lines resetScan _ rest) as [st' acc'].
      rewrite IH. unfold flush_trace.
      destruct (split_blocks_cons rest) as [b0 [bs Hb]]. rewrite Hb.
      unfold block_item, push_opt. simpl.
      destruct (has_data (currentLineItem st));
        [rewrite <- app_assoc; reflexivity | reflexivity].
    + pose proof (scan_step_not_divider st l Hd) as Hn.
      destruct (scan_step st l) as [st1 o] eqn:Hs. simpl in Hn. subst o.
      specialize (IH st1 acc). simpl.
      destruct (scan_lines st1 acc rest) as [st' acc'].
      rewrite IH. unfold flush_trace.
      destruct (split_blocks_cons rest) as [b0 [bs Hb]]. rewrite Hb.
      unfold block_item. simpl. rewrite Hs. reflexivity.
Qed.

Lemma scanLineItems_flush (lines : list string) :
  scanLineItems lines = filter has_data (flush_trace initScan lines).
Proof.
  pose proof (scan_lines_flush initScan [] lines) as H.
  unfold scanLineItems. destruct (scan_lines initScan [] lines) as [st acc].
  destruct (has_data (currentLineItem st)); simpl in H; [exact H|].
  rewrite app_nil_r in H. exact H.
Qed.

Lemma split_blocks_length (lines : list string) :
  List.length (split_blocks lines) = S (count_dividers lines).
Proof.
  unfold count_dividers. induction lines as [|l rest IH]; simpl; [reflexivity|].
  destruct (is_divider l); simpl; [rewrite IH; reflexivity|].
  destruct (split_blocks_cons rest) as [b0 [bs Hb]]. rewrite Hb in *. exact IH.
Qed.

Lemma flush_trace_length (st : ScanState) (lines : list string) :
  List.length (flush_trace st lines) = S (count_dividers lines).
Proof.
  rewrite <- split_blocks_length. unfold flush_trace.
  destruct (split_blocks lines); simpl; [reflexivity|].
  rewrite length_map. reflexivity.
Qed.

Lemma scan_lines_acc (st : ScanState) (acc : list LineItem) (lines : list string) :
  snd (scan_lines st acc lines) = (acc ++ snd (scan_lines st [] lines))%list /\
  fst (scan_lines st acc lines) = fst (scan_lines st [] lines).
Proof.
  revert st acc. induction lines as [|l rest IH]; intros st acc; simpl.
  - rewrite app_nil_r. split; reflexivity.
  - destruct (scan_step st l) as [st1 o].
    destruct (IH st1 (push_opt acc o)) as [H1 H2].
    destruct (IH st1 (push_opt [] o)) as [H3 H4].
    rewrite H1, H2, H3, H4. split; [|reflexivity].
    destruct o; simpl; [rewrite <- app_assoc|]; reflexivity.
Qed.

(** ** Claims on the scanner *)

(** Claim C1 (as the code has it): for the one-item block of the tests,
    with no divider before the description row, the extraction returns no
    item at all, not the item [Milch 3.5%, 1.29, 1 Liter]. *)
Theorem extractLineItems_one_block_no_divider :
  extractLineItems oneItemBlock = [].
Proof. vm_compute. reflexivity. Qed.

(** With a divider row before it, the same block gives the expected item. *)
Lemma extractLineItems_one_block_after_divider :
  scanLineItems (dividerLine :: extractLineItemsArray oneItemBlock) = [milchItem].
Proof. vm_compute. reflexivity. Qed.

(** The repository's [testBasicReceipt] expects two items, the first one
    [Milch 3.5%]; the code extracts only [Brot]. *)
Lemma basicReceipt_extraction :
  Src.extractNettoReceiptData basicReceiptBody
  = inl ("Netto City-Filiale, Hauptstr. 123, 12345 Berlin", [brotItem]).
Proof. vm_compute. reflexivity. Qed.

(** Claim C2, as stated, fails: after a divider, a description cell whose
    text is a space gives the in-progress item the non-null description
    [""], yet the item is not emitted, since [""] is falsy. *)
Lemma flush_non_null_not_emitted :
  ~ (forall (lines : list string) (it : LineItem),
       In it (flush_trace initScan lines) ->
       some_field_non_null it = true -> In it (scanLineItems lines)).
Proof.
  intros H.
  specialize (H [dividerLine; blankDescLine] (mkLineItem (Some "") None None)).
  assert (Ht : flush_trace initScan [dividerLine; blankDescLine]
               = [emptyLineItem; mkLineItem (Some "") None None])
    by (vm_compute; reflexivity).
  assert (Hs : scanLineItems [dividerLine; blankDescLine] = [])
    by (vm_compute; reflexivity).
  rewrite Ht, Hs in H. apply H; [right; left; reflexivity | reflexivity].
Qed.

(** Claim C2 (corrected): the emitted items are exactly the in-progress
    items, at each divider and at the end, in which at least one field is
    truthy (a non-empty description or details text, a price other than 0
    and NaN); every emitted item has a non-null field. *)
Theorem scanLineItems_emits_truthy (lines : list string) :
  scanLineItems lines = filter has_data (flush_trace initScan lines) /\
  (forall it, In it (scanLineItems lines) ->
     has_data it = true /\ some_field_non_null it = true).
Proof.
  rewrite scanLineItems_flush. split; [reflexivity|].
  intros it Hin. apply filter_In in Hin as [_ Hd]. split; [exact Hd|].
  unfold has_data, some_field_non_null in *.
  destruct it as [[d|] [p|] [t|]]; simpl in *; try reflexivity; discriminate.
Qed.

(** Claim C4: with [N] divider lines among the filtered lines, the scanner
    emits at most [N + 1] items, and they are the flushed items in input
    order: the in-progress item at each flush point, kept when it carries
    data, without reordering or removal of duplicates. *)
Theorem scanLineItems_order_and_bound (lines : list string) :
  List.length (scanLineItems lines) <= S (count_dividers lines) /\
  scanLineItems lines = filter has_data (flush_trace initScan lines).
Proof.
  rewrite scanLineItems_flush. split; [|reflexivity].
  rewrite <- (flush_trace_length initScan lines). apply filter_length_le.
Qed.

(** Claim C9: lines before the first divider are ignored: from the idle
    state (all three search flags false) no line other than a divider
    changes the state, so a prefix without divider neither fills a field
    nor changes the result. *)
Theorem scan_ignores_before_first_divider (pre rest : list string) :
  (forall l, In l pre -> is_divider l = false) ->
  scan_lines initScan [] (pre ++ rest) = scan_lines initScan [] rest /\
  scanLineItems (pre ++ rest) = scanLineItems rest.
Proof.
  intros H.
  assert (E : scan_lines initScan [] (pre ++ rest) = scan_lines initScan [] rest).
  { rewrite scan_lines_app, (scan_lines_idle pre [] H). reflexivity. }
  split; [exact E|]. unfold scanLineItems. rewrite E. reflexivity.
Qed.

Lemma scan_ignores_before_first_divider_witness :
  (forall l, In l [descLine; priceLine; detailsLine] -> is_divider l = false) /\
  scanLineItems ([descLine; priceLine; detailsLine] ++ []) = scanLineItems [].
Proof.
  assert (H : forall l, In l [descLine; priceLine; detailsLine] ->
                        is_divider l = false).
  { intros l [<-|[<-|[<-|[]]]]; vm_compute; reflexivity. }
  split; [exact H|].
  exact (proj2 (scan_ignores_before_first_divider _ [] H)).
Defined.

(** Claim C5, as stated, fails: an in-progress item whose only non-null
    field is the description [""] is not emitted at the end of the input. *)
Lemma partial_description_dropped :
  ~ (forall (pre : list string),
       let '(st, acc) := scan_lines initScan [] pre in
       description (currentLineItem st) <> None ->
       totalPrice (currentLineItem st) = None ->
       details (currentLineItem st) = None ->
       scanLineItems pre = (acc ++ [currentLineItem st])%list).
Proof.
  intros H. specialize (H [dividerLine; blankDescLine]).
  vm_compute in H. specialize (H ltac:(discriminate) eq_refl eq_refl).
  discriminate H.
Qed.

(** The flush of an in-progress item [it]: at the end of the input, and
    at a divider, where it is pushed before the items of the lines after
    that divider. *)
Lemma flush_current_item (pre : list string) (it : LineItem) :
  currentLineItem (fst (scan_lines initScan [] pre)) = it ->
  scanLineItems pre =
    (snd (scan_lines initScan [] pre) ++ (if has_data it then [it] else []))%list /\
  (forall l rest, is_divider l = true ->
     scanLineItems (pre ++ l :: rest) =
       (snd (scan_lines initScan [] pre) ++ (if has_data it then [it] else [])
          ++ scanLineItems (l :: rest))%list).
Proof.
  intros Hc. destruct (scan_lines initScan [] pre) as [st acc] eqn:Hp.
  simpl in Hc |- *. subst it. split.
  { unfold scanLineItems. rewrite Hp.
    destruct (has_data (currentLineItem st)); [reflexivity | rewrite app_nil_r; reflexivity]. }
  intros l rest Hl. unfold scanLineItems. rewrite scan_lines_app, Hp. cbn [scan_lines].
  rewrite (scan_step_divider st l Hl), (scan_step_divider initScan l Hl). cbn [push_opt].
  destruct (scan_lines_acc resetScan
              (push_opt acc (if has_data (currentLineItem st)
                             then Some (currentLineItem st) else None)) rest) as [H1 H2].
  destruct (scan_lines resetScan (push_opt acc _) rest) as [st1 acc1] eqn:E1.
  change (has_data (currentLineItem initScan)) with false. cbn [push_opt].
  destruct (scan_lines resetScan [] rest) as [st2 acc2] eqn:E2.
  simpl in H1, H2. subst acc1 st1.
  destruct (has_data (currentLineItem st)); cbn [push_opt];
    destruct (has_data (currentLineItem st2)); simpl; rewrite <- ?app_assoc; reflexivity.
Qed.

(** Claim C5 (corrected): the stored description is the trimmed captured
    text. An in-progress item whose only set field is a non-empty
    description is emitted at the end of the input, and when the next
    line is a divider it is pushed at that divider, before the items of
    the lines after it. When that description is [""] (the captured text
    trims to the empty string) the item is dropped in both cases. *)
Theorem partial_description_emitted (pre : list string) (d : string) :
  currentLineItem (fst (scan_lines initScan [] pre)) = mkLineItem (Some d) None None ->
  (d <> "" ->
     scanLineItems pre =
       (snd (scan_lines initScan [] pre) ++ [mkLineItem (Some d) None None])%list /\
     (forall l rest, is_divider l = true ->
        scanLineItems (pre ++ l :: rest) =
          (snd (scan_lines initScan [] pre)
             ++ mkLineItem (Some d) None None :: scanLineItems (l :: rest))%list)) /\
  (d = "" ->
     scanLineItems pre = snd (scan_lines initScan [] pre) /\
     (forall l rest, is_divider l = true ->
        scanLineItems (pre ++ l :: rest) =
          (snd (scan_lines initScan [] pre) ++ scanLineItems (l :: rest))%list)).
Proof.
  intros Hc. destruct (flush_current_item pre _ Hc) as [H1 H2].
  assert (Hh : has_data (mkLineItem (Some d) None None) = negb (String.eqb d "")).
  { unfold has_data. simpl. rewrite !orb_false_r. reflexivity. }
  rewrite Hh in H1, H2. split.
  - intros Hd. destruct (String.eqb d "") eqn:E;
      [apply String.eqb_eq in E; contradiction|].
    split; [exact H1|]. intros l rest Hl. rewrite (H2 l rest Hl). reflexivity.
  - intros ->. simpl in H1, H2. split; [rewrite H1, app_nil_r; reflexivity|].
    intros l rest Hl. exact (H2 l rest Hl).
Qed.

Lemma partial_description_emitted_witness :
  currentLineItem (fst (scan_lines initScan [] [dividerLine; descLine]))
    = mkLineItem (Some "Milch 3.5%") None None /\
  scanLineItems [dividerLine; descLine] =
    (snd (scan_lines initScan [] [dividerLine; descLine])
       ++ [mkLineItem (Some "Milch 3.5%") None None])%list.
Proof.
  assert (H : currentLineItem (fst (scan_lines initScan [] [dividerLine; descLine]))
              = mkLineItem (Some "Milch 3.5%") None None)
    by (vm_compute; reflexivity).
  split; [exact H|].
  exact (proj1 (proj1 (partial_description_emitted _ _ H) ltac:(discriminate))).
Defined.

Lemma extractStoreAddress_short_witness :
  List.length (js_split nl_s "Filiale") < 3 /\ extractStoreAddress "Filiale" = "".
Proof.
  assert (H : List.length (js_split nl_s "Filiale") < 3) by (vm_compute; lia).
  split; [exact H|].
  apply (proj1 (proj2 (extractStoreAddress_short "Filiale" H))). vm_compute. reflexivity.
Defined.

(** ** The segmenter *)

Lemma str_app_nil (s : string) : s ++ "" = s.
Proof. induction s as [|c s IH]; simpl; [reflexivity|]. rewrite IH. reflexivity. Qed.

Lemma str_app_assoc (a b c : string) : (a ++ b) ++ c = a ++ b ++ c.
Proof. induction a as [|x a IH]; simpl; [reflexivity|]. rewrite IH. reflexivity. Qed.

Lemma str_length_app (a b : string) : String.length (a ++ b) = String.length a + String.length b.
Proof. induction a as [|x a IH]; simpl; [reflexivity|]. rewrite IH. reflexivity. Qed.

Lemma starts_with_app (p q : string) : starts_with p (p ++ q) = true.
Proof. induction p as [|c p IH]; simpl; [reflexivity|]. rewrite Ascii.eqb_refl, IH. reflexivity. Qed.

Lemma starts_with_spec (p s : string) :
  starts_with p s = true -> exists q, s = p ++ q.
Proof.
  revert s. induction p as [|c p IH]; intros s H; simpl; [eauto|].
  destruct s as [|c' s]; simpl in H; [discriminate|].
  apply andb_true_iff in H as [H1 H2]. apply Ascii.eqb_eq in H1. subst c'.
  destruct (IH s H2) as [q ->]. eauto.
Qed.

Lemma split_go_nonempty (f : nat) (sep s cur : string) : split_go f sep s cur <> [].
Proof.
  revert s cur. induction f as [|f IH]; intros s cur; simpl; [discriminate|].
  destruct s as [|c s']; [discriminate|].
  destruct (starts_with sep (String c s')); [discriminate | apply IH].
Qed.

Lemma split_go_absent (f : nat) (sep s cur : string) :
  sep <> "" -> ~ occurs sep s -> split_go f sep s cur = [cur ++ s].
Proof.
  revert s cur. induction f as [|f IH]; intros s cur Hne Hno; simpl; [reflexivity|].
  destruct s as [|c s']; [rewrite str_app_nil; reflexivity|].
  destruct (starts_with sep (String c s')) eqn:Hsw.
  - exfalso. apply Hno. destruct (starts_with_spec _ _ Hsw) as [q Hq].
    exists "", q. exact Hq.
  - rewrite IH; [rewrite str_app_assoc; reflexivity | exact Hne |].
    intros [p [q Hpq]]. apply Hno. exists (String c p), q. simpl. rewrite Hpq. reflexivity.
Qed.

Lemma split_go_present (f : nat) (sep s cur : string) :
  sep <> "" -> occurs sep s -> String.length s < f ->
  exists x y rest, split_go f sep s cur = x :: y :: rest.
Proof.
  revert s cur. induction f as [|f IH]; intros s cur Hne Hocc Hlen; [lia|].
  simpl. destruct s as [|c s'].
  - exfalso. destruct Hocc as [p [q Hpq]]. destruct p; simpl in Hpq;
      [destruct sep; [contradiction | discriminate] | discriminate].
  - destruct (starts_with sep (String c s')) eqn:Hsw.
    + destruct (split_go f sep (drop_n (String.length sep) (String c s')) "") as [|y rest] eqn:E;
        [exfalso; exact (split_go_nonempty _ _ _ _ E)|].
      eauto.
    + apply IH; [exact Hne | | simpl in Hlen; lia].
      destruct Hocc as [[|c0 p] [q Hpq]].
      * exfalso. simpl in Hpq. rewrite Hpq, starts_with_app in Hsw. discriminate.
      * simpl in Hpq. injection Hpq as _ Hpq. exists p, q. exact Hpq.
Qed.

Lemma js_split_absent (sep s : string) :
  sep <> "" -> ~ occurs sep s -> js_split sep s = [s].
Proof. intros. unfold js_split. rewrite split_go_absent by assumption. reflexivity. Qed.

Lemma js_split_present (sep s : string) :
  sep <> "" -> occurs sep s -> exists x y rest, js_split sep s = x :: y :: rest.
Proof. intros. apply split_go_present; [assumption | assumption | lia]. Qed.

Lemma js_split_head (sep s : string) : exists x rest, js_split sep s = x :: rest.
Proof.
  unfold js_split. destruct (split_go _ sep s "") as [|x rest] eqn:E; [|eauto].
  exfalso. exact (split_go_nonempty _ _ _ _ E).
Qed.

(** Claim C3, as stated, fails: with the end marker missing after the start
    marker the segmenter returns both parts without error, and with the
    middle marker missing it returns without error too, [lineItemsRaw]
    being [undefined]. *)
Lemma segmenter_missing_markers_no_error :
  extractStoreAndPurchaseString "Filiale:A<!-- WARENKORB -->B"
    "Filiale:" "<!-- WARENKORB -->" "<!-- SUMME -->" = inl (Some "A", Some "B") /\
  extractStoreAndPurchaseString "Filiale:A<!-- SUMME -->C"
    "Filiale:" "<!-- WARENKORB -->" "<!-- SUMME -->" = inl (Some "A", None).
Proof. split; vm_compute; reflexivity. Qed.

(** Claim C3 (corrected): the segmenter throws (a catchable [TypeError])
    exactly when the start marker is absent.  Otherwise it returns without
    error: the span is the text after the start marker (up to a second
    start marker), cut at the first end marker if there is one and kept
    whole if there is none; the address part is the text before the first
    middle marker, and the line-items part is the text after it, or
    [undefined] when the span has no middle marker, in which case the
    top-level extraction of unnamed/part_000 throws the [TypeError]. *)
Theorem segmenter_errors (emailBody startString middleString endString : string) :
  startString <> "" -> middleString <> "" -> endString <> "" ->
  (~ occurs startString emailBody ->
     extractStoreAndPurchaseString emailBody startString middleString endString
     = inr TypeError) /\
  (occurs startString emailBody ->
     exists afterStart span addr,
       nth_error (js_split startString emailBody) 1 = Some afterStart /\
       (~ occurs endString afterStart -> span = afterStart) /\
       extractStoreAndPurchaseString emailBody startString middleString endString
       = inl (Some addr, nth_error (js_split middleString span) 1) /\
       (~ occurs middleString span -> addr = span /\
          nth_error (js_split middleString span) 1 = None) /\
       (occurs middleString span ->
          exists items, nth_error (js_split middleString span) 1 = Some items)) /\
  (forall addr,
     extractStoreAndPurchaseString emailBody "Filiale:" "<!-- ZAHLUNGEN -->"
       "<!-- SUMME -->" = inl (Some addr, None) ->
     Gas.extractNettoReceiptData emailBody = inr TypeError).
Proof.
  intros Hs Hm He. split; [|split].
  - intros Hno. unfold extractStoreAndPurchaseString.
    rewrite (js_split_absent _ _ Hs Hno). reflexivity.
  - intros Hocc. destruct (js_split_present _ _ Hs Hocc) as [x [afterStart [rest Hsp]]].
    destruct (js_split_head endString afterStart) as [span [rest2 Hsp2]].
    destruct (js_split_head middleString span) as [addr [rest3 Hsp3]].
    exists afterStart, span, addr. split; [|split; [|split; [|split]]].
    + rewrite Hsp. reflexivity.
    + intros Hno. rewrite (js_split_absent _ _ He Hno) in Hsp2. congruence.
    + unfold extractStoreAndPurchaseString. rewrite Hsp. simpl. rewrite Hsp2. simpl.
      rewrite Hsp3. reflexivity.
    + intros Hno. pose proof (js_split_absent _ _ Hm Hno) as E.
      rewrite E in Hsp3 |- *. injection Hsp3 as <- _. split; reflexivity.
    + intros Hocc2. destruct (js_split_present _ _ Hm Hocc2) as [x3 [y3 [r3 E]]].
      rewrite E. simpl. eauto.
  - intros addr E. unfold Gas.extractNettoReceiptData. rewrite E. reflexivity.
Qed.

Lemma segmenter_errors_witness :
  ("Filiale:" <> "" /\ "<!-- WARENKORB -->" <> "" /\ "<!-- SUMME -->" <> "") /\
  extractStoreAndPurchaseString "none" "Filiale:" "<!-- WARENKORB -->"
    "<!-- SUMME -->" = inr TypeError.
Proof.
  assert (H1 : "Filiale:" <> "") by discriminate.
  assert (H2 : "<!-- WARENKORB -->" <> "") by discriminate.
  assert (H3 : "<!-- SUMME -->" <> "") by discriminate.
  split; [repeat split; assumption|].
  apply (proj1 (segmenter_errors "none" _ _ _ H1 H2 H3)).
  intros [p [q Hpq]]. apply (f_equal String.length) in Hpq.
  rewrite !str_length_app in Hpq. simpl in Hpq. lia.
Defined.

(** The receipts of the tests place [<!-- ZAHLUNGEN -->] after
    [<!-- SUMME -->]: the part_000 version, which splits the span cut at
    [<!-- SUMME -->] on [<!-- ZAHLUNGEN -->], throws on them. *)
Lemma gas_basicReceipt_throws :
  Gas.extractNettoReceiptData basicReceiptBody = inr TypeError.
Proof. vm_compute. reflexivity. Qed.

(** ** Regular expression matching *)

Open Scope list_scope.

Lemma mt_char_in (a : ascii) (s : list ascii) (c : capture) (y : mstate) :
  In y (mt (RChar a) s c) -> exists s', s = a :: s' /\ y = (s', c).
Proof.
  destruct s as [|b s']; simpl; [intros []|].
  destruct (Ascii.eqb a b) eqn:E; [|intros []].
  apply Ascii.eqb_eq in E. subst b. intros [<-|[]]. eauto.
Qed.


Lemma mt_seq (r1 r2 : regex) (s : list ascii) (c : capture) :
  mt (RSeq r1 r2) s c = flat_map (fun p : mstate => mt r2 (fst p) (snd p)) (mt r1 s c).
Proof. reflexivity. Qed.


Lemma mt_lit_in (w : string) (k : regex) (t : list ascii) (c : capture) (x : mstate) :
  In x (mt (RLit w k) t c) ->
  exists t', t = list_ascii_of_string w ++ t' /\ In x (mt k t' c).
Proof.
  revert t. induction w as [|a w IH]; intros t H; [exists t; split; [reflexivity | exact H]|].
  cbn [RLit] in H. rewrite mt_seq in H. apply in_flat_map in H as [y [Hy Hx]].
  apply mt_char_in in Hy as [s' [-> ->]]. simpl in Hx.
  destruct (IH s' Hx) as [t' [-> Ht']]. exists t'. split; [reflexivity | exact Ht'].
Qed.

Lemma rev_seq_S (k : nat) : rev (seq 0 (S k)) = k :: rev (seq 0 k).
Proof. rewrite seq_S, rev_app_distr. reflexivity. Qed.

(** [.*] and [.*?] list the suffixes [.] can reach, longest first for the
    greedy one, shortest first for the lazy one. *)
Lemma mt_any_cons (a : ascii) (s : list ascii) (c : capture) :
  mt RAny (a :: s) c = if is_line_terminator a then [] else [(s, c)].
Proof. reflexivity. Qed.

Lemma star_any_greedy (n : nat) (s : list ascii) (c : capture) :
  List.length s < n ->
  star_go (mt RAny) true n s c
  = map (fun j => (skipn j s, c)) (rev (seq 0 (S (nt_len s)))).
Proof.
  revert n. induction s as [|a s IH]; intros n Hn; (destruct n as [|n]; [simpl in Hn; lia|]).
  - reflexivity.
  - cbn [star_go]. rewrite mt_any_cons. cbn [nt_len].
    destruct (is_line_terminator a); [reflexivity|].
    cbn [flat_map fst snd List.length].
    rewrite (proj2 (Nat.ltb_lt _ _) (Nat.lt_succ_diag_r _)).
    rewrite app_nil_r, (IH n) by (simpl in Hn; lia).
    change (seq 0 (S (S (nt_len s)))) with (0 :: seq 1 (S (nt_len s))).
    rewrite <- seq_shift. cbn [rev]. rewrite <- map_rev, map_app, map_map.
    reflexivity.
Qed.

Lemma star_any_lazy (n : nat) (s : list ascii) (c : capture) :
  List.length s < n ->
  star_go (mt RAny) false n s c
  = map (fun j => (skipn j s, c)) (seq 0 (S (nt_len s))).
Proof.
  revert n. induction s as [|a s IH]; intros n Hn; (destruct n as [|n]; [simpl in Hn; lia|]).
  - reflexivity.
  - cbn [star_go]. rewrite mt_any_cons. cbn [nt_len].
    destruct (is_line_terminator a); [reflexivity|].
    cbn [flat_map fst snd List.length].
    rewrite (proj2 (Nat.ltb_lt _ _) (Nat.lt_succ_diag_r _)).
    rewrite app_nil_r, (IH n) by (simpl in Hn; lia).
    change (seq 0 (S (S (nt_len s)))) with (0 :: seq 1 (S (nt_len s))).
    rewrite <- seq_shift. cbn [map]. rewrite map_map. reflexivity.
Qed.

Lemma mt_star_any_in (g : bool) (s : list ascii) (c : capture) (y : mstate) :
  In y (mt (RStar g RAny) s c) <-> exists j, j <= nt_len s /\ y = (skipn j s, c).
Proof.
  change (mt (RStar g RAny) s c) with (star_go (mt RAny) g (S (List.length s)) s c).
  destruct g; [rewrite star_any_greedy by lia | rewrite star_any_lazy by lia];
    rewrite in_map_iff; split.
  - intros [j [<- Hj]]. rewrite <- in_rev, in_seq in Hj. exists j. split; [lia | reflexivity].
  - intros [j [Hj ->]]. exists j. split; [reflexivity|]. rewrite <- in_rev, in_seq. lia.
  - intros [j [<- Hj]]. apply in_seq in Hj. exists j. split; [lia | reflexivity].
  - intros [j [Hj ->]]. exists j. split; [reflexivity|]. apply in_seq. lia.
Qed.

Lemma mt_plus_any_in (g : bool) (s : list ascii) (c : capture) (y : mstate) :
  In y (mt (RPlus g RAny) s c) <->
  exists j, 1 <= j <= nt_len s /\ y = (skipn j s, c).
Proof.
  unfold RPlus. rewrite mt_seq. destruct s as [|a s].
  - simpl. split; [intros [] | intros [j [Hj _]]; lia].
  - rewrite mt_any_cons. cbn [nt_len]. destruct (is_line_terminator a).
    + simpl. split; [intros [] | intros [j [Hj _]]; lia].
    + cbn [flat_map fst snd]. rewrite app_nil_r, mt_star_any_in. split.
      * intros [j [Hj ->]]. exists (S j). split; [lia | reflexivity].
      * intros [[|j] [Hj ->]]; [lia|]. exists j. split; [lia | reflexivity].
Qed.

Lemma mt_group_in (r : regex) (s : list ascii) (c : capture) (y : mstate) :
  In y (mt (RGroup r) s c) <->
  exists z, In z (mt r s c) /\
    y = (fst z, Some (firstn (List.length s - List.length (fst z)) s)).
Proof.
  cbn [mt]. rewrite in_map_iff. split.
  - intros [z [<- Hz]]. eauto.
  - intros [z [Hz ->]]. eauto.
Qed.






Lemma list_ascii_of_string_app (s1 s2 : string) :
  list_ascii_of_string (s1 ++ s2) = list_ascii_of_string s1 ++ list_ascii_of_string s2.
Proof. induction s1 as [|a s1 IH]; simpl; [reflexivity|]. rewrite IH. reflexivity. Qed.

Lemma string_of_list_ascii_app (l1 l2 : list ascii) :
  string_of_list_ascii (l1 ++ l2) = (string_of_list_ascii l1 ++ string_of_list_ascii l2)%string.
Proof. induction l1 as [|a l1 IH]; simpl; [reflexivity|]. rewrite IH. reflexivity. Qed.










































(* ------------------------------------------------------------------ *)
(** ** Binary64 rounding of [n / 100] *)

Open Scope Z_scope.

Lemma digits2_pos_size (p : positive) : digits2_pos p = Pos.size p.
Proof. induction p as [p IH|p IH|]; simpl; rewrite ?IH; reflexivity. Qed.

Lemma size_bounds (p : positive) :
  2 ^ (Zpos (Pos.size p) - 1) <= Zpos p < 2 ^ Zpos (Pos.size p).
Proof.
  induction p as [p IH|p IH|]; [| |simpl; lia].
  all: change (Pos.size _) with (Pos.succ (Pos.size p));
    rewrite (Pos2Z.inj_succ (Pos.size p)), ?(Pos2Z.inj_xI p), ?(Pos2Z.inj_xO p);
    set (k := Zpos (Pos.size p)) in *;
    replace (Z.succ k - 1) with k by lia;
    rewrite Z.pow_succ_r by lia;
    assert (E : 2 ^ k = 2 * 2 ^ (k - 1))
      by (rewrite <- Z.pow_succ_r by lia; f_equal; lia);
    lia.
Qed.

(** The number of bits of a positive number between two powers of two. *)
Lemma size_between (p : positive) (k : Z) :
  0 <= k -> 2 ^ k <= Zpos p < 2 ^ (k + 1) -> Zpos (Pos.size p) = k + 1.
Proof.
  intros Hk Hp. pose proof (size_bounds p) as [H1 H2].
  destruct (Z.lt_trichotomy (Zpos (Pos.size p)) (k + 1)) as [Hl|[He|Hg]]; [|exact He|].
  - assert (2 ^ Zpos (Pos.size p) <= 2 ^ k) by (apply Z.pow_le_mono_r; lia). lia.
  - assert (2 ^ (k + 1) <= 2 ^ (Zpos (Pos.size p) - 1)) by (apply Z.pow_le_mono_r; lia). lia.
Qed.

Lemma shr_m_of_loc (m : Z) (l : location) : shr_m (shr_record_of_loc m l) = m.
Proof. destruct l as [|[]]; reflexivity. Qed.

Lemma shr_1_m (mrs : shr_record) : 0 <= shr_m mrs -> shr_m (shr_1 mrs) = shr_m mrs / 2.
Proof.
  destruct mrs as [m r s]. cbn [shr_m]. intros Hm.
  destruct m as [|[p|p|]|p]; cbn [shr_1 shr_m]; try reflexivity; try lia;
    rewrite <- Z.div2_div; reflexivity.
Qed.

Lemma round_nearest_even_cases (m : Z) (l : location) :
  round_nearest_even m l = m \/ round_nearest_even m l = m + 1.
Proof.
  destruct l as [|[]]; cbn [round_nearest_even]; auto. destruct (Z.even m); auto.
Qed.

(** One normalisation step of the rounding: a mantissa of 53 bits is kept,
    one of 54 bits loses its last bit. *)
Lemma shr_fexp_53 (m e : Z) (l : location) :
  2 ^ 52 <= m < 2 ^ 54 -> -1000 <= e <= 10 ->
  exists n mrs, shr_fexp 53 1024 m e l = (mrs, e + n) /\
    shr_m mrs = m / 2 ^ n /\
    (m < 2 ^ 53 -> n = 0) /\ (2 ^ 53 <= m -> n = 1).
Proof.
  intros Hm He. destruct m as [|p|p]; [lia| |lia]. unfold shr_fexp.
  change (Zdigits2 (Zpos p)) with (Zpos (digits2_pos p)). rewrite digits2_pos_size.
  destruct (Z_lt_le_dec (Zpos p) (2 ^ 53)) as [Hlt|Hge].
  - rewrite (size_between p 52) by lia.
    replace (fexp 53 1024 (52 + 1 + e) - e) with 0 by (unfold fexp, emin; lia).
    exists 0, (shr_record_of_loc (Zpos p) l). cbn [shr]. rewrite Z.add_0_r, shr_m_of_loc.
    refine (conj eq_refl (conj _ (conj _ _))); [|lia|lia].
    rewrite Z.pow_0_r, Z.div_1_r. reflexivity.
  - rewrite (size_between p 53) by lia.
    replace (fexp 53 1024 (53 + 1 + e) - e) with 1 by (unfold fexp, emin; lia).
    exists 1, (shr_1 (shr_record_of_loc (Zpos p) l)). cbn [shr iter_pos].
    refine (conj eq_refl (conj _ (conj _ _))); [|lia|lia].
    rewrite shr_1_m, shr_m_of_loc by (rewrite shr_m_of_loc; lia).
    rewrite Z.pow_1_r. reflexivity.
Qed.

Ltac div2_facts :=
  repeat match goal with
  | H : context [?a / 2] |- _ =>
      lazymatch goal with
      | _ : a = 2 * (a / 2) + a mod 2 |- _ => fail
      | _ => pose proof (Z.div_mod a 2 ltac:(lia)); pose proof (Z.mod_pos_bound a 2 ltac:(lia))
      end
  end.

(** Rounding a quotient of 53 or 54 bits to binary64: the result is within
    a few units of the last place of the quotient. *)
Lemma round_aux_near (q e : Z) (l : location) :
  2 ^ 52 <= q < 2 ^ 54 -> -1000 <= e <= 0 ->
  exists mf k, binary_round_aux 53 1024 false q e l = S754_finite false mf (e + k) /\
    0 <= k <= 2 /\ q - 8 < Zpos mf * 2 ^ k < q + 8 /\ Zpos mf < 2 ^ 54.
Proof.
  intros Hq He. unfold binary_round_aux.
  destruct (shr_fexp_53 q e l Hq ltac:(lia)) as [n1 [mrs1 [E1 [Hm1 [Hn1a Hn1b]]]]].
  rewrite E1.
  pose proof (round_nearest_even_cases (shr_m mrs1) (loc_of_shr_record mrs1)) as Hm2.
  set (m2 := round_nearest_even (shr_m mrs1) (loc_of_shr_record mrs1)) in *.
  assert (Hn1 : n1 = 0 /\ q < 2 ^ 53 \/ n1 = 1 /\ 2 ^ 53 <= q).
  { destruct (Z_lt_le_dec q (2 ^ 53)); [left | right]; auto. }
  assert (Hb2 : 2 ^ 52 <= m2 <= 2 ^ 53 /\ q - 2 ^ n1 < m2 * 2 ^ n1 <= q + 2 ^ n1).
  { destruct Hn1 as [[-> Hq1] | [-> Hq1]]; rewrite Hm1 in Hm2;
      rewrite ?Z.pow_0_r, ?Z.pow_1_r, ?Z.div_1_r in *; div2_facts; lia. }
  destruct (shr_fexp_53 m2 (e + n1) loc_Exact ltac:(lia) ltac:(lia))
    as [n2 [mrs2 [E2 [Hm3 [Hn2a Hn2b]]]]].
  rewrite E2.
  assert (Hn2 : n2 = 0 /\ m2 < 2 ^ 53 \/ n2 = 1 /\ m2 = 2 ^ 53).
  { destruct (Z_lt_le_dec m2 (2 ^ 53)); [left | right]; split; auto; lia. }
  assert (Hpos : 2 ^ 51 <= shr_m mrs2 <= 2 ^ 53).
  { rewrite Hm3. destruct Hn2 as [[-> _] | [-> ->]]; [rewrite Z.pow_0_r, Z.div_1_r; lia|].
    rewrite Z.pow_1_r. change (2 ^ 53 / 2) with (2 ^ 52). lia. }
  destruct (shr_m mrs2) as [|mf|mf] eqn:Em3; [lia| |lia].
  rewrite <- Z.add_assoc.
  replace (Z.leb (e + (n1 + n2)) (1024 - 53)) with true
    by (symmetry; apply Z.leb_le; destruct Hn1 as [[-> _]|[-> _]];
        destruct Hn2 as [[-> _]|[-> _]]; lia).
  exists mf, (n1 + n2). split; [reflexivity|].
  destruct Hn1 as [[-> Hq1] | [-> Hq1]]; destruct Hn2 as [[-> Hm2'] | [-> Hm2']];
    rewrite ?Z.pow_0_r, ?Z.pow_1_r, ?Z.div_1_r in *; cbn [Z.add] in *;
    rewrite ?Z.pow_0_r, ?Z.pow_1_r in *; div2_facts;
    [lia | | | ]; subst m2; rewrite ?Hm2' in *;
    change (2 ^ 2) with 4; change (2 ^ 53 / 2) with (2 ^ 52) in Hm3; lia.
Qed.

Lemma size_le_47 (m : positive) : Zpos m < 2 ^ 47 -> 1 <= Zpos (Pos.size m) <= 47.
Proof.
  intros Hm. pose proof (size_bounds m) as [Hs1 _]. split; [lia|].
  destruct (Z_le_gt_dec (Zpos (Pos.size m)) 47) as [H|H]; [exact H|].
  assert (2 ^ 47 <= 2 ^ (Zpos (Pos.size m) - 1)) by (apply Z.pow_le_mono_r; lia). lia.
Qed.

(** The exact part of the division [m / 100]: the quotient of [m * 2^s] by
    100 with [s = 60 - bits(m)], and the location of the remainder. *)
Lemma div_core_100 (m : positive) :
  Zpos m < 2 ^ 47 ->
  exists q r, SFdiv_core_binary 53 1024 (Zpos m) 0 100 0
              = (q, - (60 - Zpos (Pos.size m)), new_location 100 r) /\
    Zpos m * 2 ^ (60 - Zpos (Pos.size m)) = 100 * q + r /\ 0 <= r < 100.
Proof.
  intros Hm. pose proof (size_le_47 m Hm) as Hd.
  unfold SFdiv_core_binary. cbv zeta.
  change (Zdigits2 (Zpos m)) with (Zpos (digits2_pos m)). rewrite digits2_pos_size.
  change (Zdigits2 100) with 7.
  set (d := Zpos (Pos.size m)) in *.
  replace (Z.min (fexp 53 1024 (d + 0 - (7 + 0))) (0 - 0)) with (- (60 - d))
    by (unfold fexp, emin; lia).
  replace (0 - 0 - - (60 - d)) with (60 - d) by lia.
  destruct (60 - d) as [|p|p] eqn:Es; [lia| |lia].
  rewrite Z.shiftl_mul_pow2 by lia.
  pose proof (Z_div_mod (Zpos m * 2 ^ Zpos p) 100 ltac:(lia)) as Hdm.
  destruct (Z.div_eucl (Zpos m * 2 ^ Zpos p) 100) as [q r].
  exists q, r. split; [reflexivity | lia].
Qed.

(** For a positive [m] below [2^47], the binary64 quotient [m / 100] is a
    finite number whose two-decimal rendering by [toFixed] gives back [m]
    hundredths. *)
Lemma div100_fixed2 (m : positive) :
  Zpos m < 2 ^ 47 ->
  exists mf ef, b64_div (S754_finite false m 0) (S754_finite false 100 0)
                = S754_finite false mf ef /\
    ef < 0 /\ Zpos mf < 2 ^ 54 /\ fixed2_n mf ef = Zpos m.
Proof.
  intros Hm. pose proof (size_le_47 m Hm) as Hd. pose proof (size_bounds m) as [Hs1 Hs2].
  destruct (div_core_100 m Hm) as [q [r [Ec [Hqr Hr]]]].
  set (d := Zpos (Pos.size m)) in *.
  assert (H59 : 2 ^ (d - 1) * 2 ^ (60 - d) = 2 ^ 59)
    by (rewrite <- Z.pow_add_r by lia; f_equal; lia).
  assert (H60 : 2 ^ d * 2 ^ (60 - d) = 2 ^ 60)
    by (rewrite <- Z.pow_add_r by lia; f_equal; lia).
  assert (Hpos : 0 < 2 ^ (60 - d)) by (apply Z.pow_pos_nonneg; lia).
  assert (Hlo : 2 ^ 59 <= Zpos m * 2 ^ (60 - d)) by nia.
  assert (Hhi : Zpos m * 2 ^ (60 - d) < 2 ^ 60) by nia.
  assert (Hq : 2 ^ 52 <= q < 2 ^ 54) by lia.
  unfold b64_div, SFdiv. rewrite Ec. cbv beta iota. cbn [xorb].
  destruct (round_aux_near q (- (60 - d)) (new_location 100 r) Hq ltac:(lia))
    as [mf [k [Er [Hk [Hmf Hmf54]]]]].
  rewrite Er. exists mf, (- (60 - d) + k).
  split; [reflexivity|]. split; [lia|]. split; [exact Hmf54|].
  unfold fixed2_n. cbv zeta.
  replace (0 <=? - (60 - d) + k) with false by (symmetry; apply Z.leb_gt; lia).
  replace (- (- (60 - d) + k)) with (60 - d - k) by lia.
  set (P := 2 ^ (60 - d - k)). set (K := 2 ^ k).
  assert (HPK : 2 ^ (60 - d) = P * K)
    by (unfold P, K; rewrite <- Z.pow_add_r by lia; f_equal; lia).
  assert (HK : 1 <= K) by (unfold K; apply (Z.pow_le_mono_r 2 0 k); lia).
  assert (HP : 2048 <= P) by (unfold P; apply (Z.pow_le_mono_r 2 11); lia).
  rewrite HPK in Hqr.
  assert (HTK : -900 < (Zpos mf * 100 - Zpos m * P) * K < 900) by nia.
  assert (HT : -900 < Zpos mf * 100 - Zpos m * P < 900) by nia.
  pose proof (Z.div_mod (Zpos mf * 100) P ltac:(lia)) as Hdm.
  pose proof (Z.mod_pos_bound (Zpos mf * 100) P ltac:(lia)) as Hmb.
  set (q2 := Zpos mf * 100 / P) in *. set (r2 := Zpos mf * 100 mod P) in *.
  assert (Hq2 : q2 = Zpos m \/ q2 = Zpos m - 1) by nia.
  destruct (P <=? 2 * r2) eqn:Eb; [apply Z.leb_le in Eb | apply Z.leb_gt in Eb];
    destruct Hq2 as [-> | ->]; nia.
Qed.

Lemma of_lu_lt (d : Decimal.uint) : (DecimalPos.Unsigned.of_lu d < 10 ^ DecimalPos.Unsigned.usize d)%N.
Proof.
  induction d; cbn [DecimalPos.Unsigned.of_lu DecimalPos.Unsigned.usize];
    rewrite ?N.pow_succ_r'; lia.
Qed.

Lemma usize_revapp (d d' : Decimal.uint) :
  DecimalPos.Unsigned.usize (Decimal.revapp d d') =
  (DecimalPos.Unsigned.usize d + DecimalPos.Unsigned.usize d')%N.
Proof.
  revert d'. induction d; intros d'; cbn [Decimal.revapp DecimalPos.Unsigned.usize];
    rewrite ?IHd; cbn [DecimalPos.Unsigned.usize]; lia.
Qed.

Lemma usize_digit_cons (a : ascii) (u : Decimal.uint) :
  DecimalPos.Unsigned.usize (digit_cons a u) = N.succ (DecimalPos.Unsigned.usize u).
Proof.
  unfold digit_cons. destruct (nat_of_ascii a - 48)%nat as [|[|[|[|[|[|[|[|[|n]]]]]]]]];
    reflexivity.
Qed.

Lemma usize_digits (l : list ascii) :
  DecimalPos.Unsigned.usize (uint_of_digits l) = N.of_nat (List.length l).
Proof.
  induction l as [|a l IH]; [reflexivity|]. cbn [uint_of_digits List.length].
  rewrite usize_digit_cons, IH. lia.
Qed.

(** The value of a numeral of [k] digits is below [10^k]. *)
Lemma of_uint_digits_lt (l : list ascii) :
  (N.of_uint (uint_of_digits l) < 10 ^ N.of_nat (List.length l))%N.
Proof.
  change (N.of_uint (uint_of_digits l)) with (Pos.of_uint (uint_of_digits l)).
  rewrite DecimalPos.Unsigned.of_uint_alt.
  pose proof (of_lu_lt (Decimal.rev (uint_of_digits l))) as H.
  unfold Decimal.rev in H. rewrite usize_revapp, usize_digits in H.
  cbn [DecimalPos.Unsigned.usize] in H. rewrite N.add_0_r in H. exact H.
Qed.

Close Scope Z_scope.

Lemma is_digit_cases (a : ascii) :
  is_digit a = true ->
  In a ["0"; "1"; "2"; "3"; "4"; "5"; "6"; "7"; "8"; "9"]%char.
Proof.
  destruct a as [[] [] [] [] [] [] [] []]; intros H; vm_compute in H;
    try discriminate H; simpl; tauto.
Qed.

Ltac digit_cases H :=
  apply is_digit_cases in H; simpl in H;
  repeat (destruct H as [<- | H]); [..| destruct H].

Lemma digit_not_space (a : ascii) : is_digit a = true -> is_js_space a = false.
Proof. intros H. digit_cases H; reflexivity. Qed.

Lemma digit_not_comma (a : ascii) : is_digit a = true -> Ascii.eqb "," a = false.
Proof. intros H. digit_cases H; reflexivity. Qed.

Lemma digits_string (l : list ascii) :
  forallb is_digit l = true -> NilEmpty.string_of_uint (uint_of_digits l) = string_of_list_ascii l.
Proof.
  induction l as [|a l IH]; intros H; [reflexivity|]. simpl in H.
  apply andb_prop in H as [Ha Hl]. cbn [uint_of_digits string_of_list_ascii].
  rewrite <- (IH Hl). digit_cases Ha; reflexivity.
Qed.

Lemma trim_start_nonspace (a : ascii) (l : list ascii) :
  is_js_space a = false -> trim_start_l (a :: l) = a :: l.
Proof. intros H. simpl. rewrite H. reflexivity. Qed.

Lemma js_trim_price (h : ascii) (t : list ascii) (a b : ascii) :
  is_digit h = true -> is_digit b = true ->
  js_trim (string_of_list_ascii ((h :: t) ++ [","%char; a; b])) =
  string_of_list_ascii ((h :: t) ++ [","%char; a; b]).
Proof.
  intros Hh Hb. unfold js_trim. rewrite list_ascii_of_string_of_list_ascii.
  cbn [app]. rewrite trim_start_nonspace by (apply digit_not_space; exact Hh).
  rewrite app_comm_cons, rev_app_distr. cbn [rev app].
  rewrite trim_start_nonspace by (apply digit_not_space; exact Hb).
  replace (b :: a :: ","%char :: rev t ++ [h]) with (rev ((h :: t) ++ [","%char; a; b]))
    by (rewrite rev_app_distr; reflexivity).
  rewrite rev_involutive. reflexivity.
Qed.

Lemma replace_comma (D t : list ascii) :
  forallb is_digit D = true ->
  js_replace "," "." (string_of_list_ascii (D ++ ","%char :: t)) =
  string_of_list_ascii (D ++ "."%char :: t).
Proof.
  induction D as [|d D IH]; intros H; [reflexivity|].
  simpl in H. apply andb_prop in H as [Hd HD].
  cbn [app string_of_list_ascii js_replace starts_with].
  rewrite digit_not_comma by exact Hd. cbn [andb]. rewrite IH by exact HD. reflexivity.
Qed.

Lemma span_digits_app (D : list ascii) (x : ascii) (t : list ascii) :
  forallb is_digit D = true -> is_digit x = false ->
  span_digits (D ++ x :: t) = (D, x :: t).
Proof.
  induction D as [|d D IH]; intros H Hx; simpl; [rewrite Hx; reflexivity|].
  simpl in H. apply andb_prop in H as [Hd HD]. rewrite Hd, IH by assumption. reflexivity.
Qed.

Lemma parseFloat_price (h : ascii) (t : list ascii) (a b : ascii) :
  forallb is_digit (h :: t) = true -> is_digit a = true -> is_digit b = true ->
  parseFloat (string_of_list_ascii ((h :: t) ++ ["."%char; a; b])) =
  decimal_to_number (N.of_uint (uint_of_digits ((h :: t) ++ [a; b]))) 2.
Proof.
  intros HD Ha Hb. unfold parseFloat. rewrite list_ascii_of_string_of_list_ascii.
  cbn [app]. rewrite trim_start_nonspace
    by (apply digit_not_space; simpl in HD; apply andb_prop in HD as [Hh _]; exact Hh).
  rewrite app_comm_cons, span_digits_app by (exact HD || reflexivity).
  cbn [span_digits]. rewrite Ha, Hb. reflexivity.
Qed.

Lemma substring_app_l (s1 s2 : string) : substring 0 (String.length s1) (s1 ++ s2) = s1.
Proof.
  induction s1 as [|c s1 IH]; [destruct s2; reflexivity|].
  cbn [String.length append substring]. rewrite IH. reflexivity.
Qed.

Lemma substring_app_r (s1 : string) (a b : ascii) :
  substring (String.length s1) 2 (s1 ++ String a (String b "")) = String a (String b "").
Proof. induction s1 as [|c s1 IH]; [reflexivity|]. exact IH. Qed.

Lemma length_string_of_list_ascii (l : list ascii) :
  String.length (string_of_list_ascii l) = List.length l.
Proof. induction l as [|a l IH]; simpl; [reflexivity|]. rewrite IH. reflexivity. Qed.

(** [toFixed(2)] writes a numeral of at least three digits with the
    decimal point before its last two digits. *)
Lemma fixed2_digits_of (m : positive) (D : list ascii) (a b : ascii) :
  D <> [] -> N.to_uint (Npos m) = uint_of_digits (D ++ [a; b]) ->
  forallb is_digit (D ++ [a; b]) = true ->
  fixed2_digits (Zpos m) = string_of_list_ascii (D ++ ["."%char; a; b]).
Proof.
  intros HD Hu Hdig. unfold fixed2_digits. cbv zeta. change (Z.to_N (Zpos m)) with (Npos m).
  rewrite Hu, digits_string by exact Hdig.
  rewrite string_of_list_ascii_app. cbn [string_of_list_ascii].
  rewrite str_length_app. cbn [String.length].
  rewrite length_string_of_list_ascii.
  destruct D as [|x D]; [contradiction|]. cbn [List.length].
  replace (Nat.leb (S (List.length D) + 2) 2) with false
    by (symmetry; apply Nat.leb_gt; lia).
  rewrite str_length_app. cbn [String.length].
  replace (String.length (string_of_list_ascii (x :: D)) + 2 - 2)%nat
    with (String.length (string_of_list_ascii (x :: D))) by lia.
  rewrite substring_app_l, substring_app_r, string_of_list_ascii_app. reflexivity.
Qed.

(** The round trip for an integer part with a nonzero leading digit. *)
Lemma round_trip_nonzero (h : ascii) (t : list ascii) (a b : ascii) :
  forallb is_digit ((h :: t) ++ [a; b]) = true -> Ascii.eqb h "0" = false ->
  (List.length (h :: t) <= 12)%nat ->
  toFixed2 (decimal_to_number (N.of_uint (uint_of_digits ((h :: t) ++ [a; b]))) 2) =
  Some (string_of_list_ascii ((h :: t) ++ ["."%char; a; b])).
Proof.
  intros Hdig Hh0 Hlen.
  assert (Hu : Decimal.unorm (uint_of_digits ((h :: t) ++ [a; b]))
               = uint_of_digits ((h :: t) ++ [a; b])).
  { simpl in Hdig. apply andb_prop in Hdig as [Hh _]. cbn [app uint_of_digits].
    digit_cases Hh; try reflexivity. discriminate Hh0. }
  pose proof (of_uint_digits_lt ((h :: t) ++ [a; b])) as Hlt.
  rewrite length_app in Hlt. cbn [List.length] in Hlt.
  assert (Hb14 : (10 ^ N.of_nat (S (List.length t) + 2) <= 10 ^ 14)%N)
    by (apply N.pow_le_mono_r; cbn [List.length] in Hlen; lia).
  destruct (N.of_uint (uint_of_digits ((h :: t) ++ [a; b]))) as [|m] eqn:Eu.
  - exfalso. apply (f_equal N.to_uint) in Eu.
    rewrite DecimalN.Unsigned.to_of, Hu in Eu.
    apply (f_equal DecimalPos.Unsigned.usize) in Eu.
    rewrite usize_digits, length_app in Eu. cbn in Eu. lia.
  - unfold decimal_to_number. change (Z.to_pos (10 ^ Z.of_nat 2)) with 100%positive.
    assert (Hm : (Zpos m < 2 ^ 47)%Z).
    { assert (Hm' : (Npos m < 10 ^ 14)%N) by lia.
      change (10 ^ 14)%N with 100000000000000%N in Hm'.
      change (2 ^ 47)%Z with 140737488355328%Z. lia. }
    destruct (div100_fixed2 m Hm) as [mf [ef [Ed [Hef [Hmf Hfix]]]]].
    rewrite Ed. unfold toFixed2.
    replace (0 <=? ef)%Z with false by (symmetry; apply Z.leb_gt; lia).
    replace (10 ^ 21 * 2 ^ (- ef) <=? Zpos mf)%Z with false.
    2: { symmetry. apply Z.leb_gt.
         assert (1 <= 2 ^ (- ef))%Z by (apply (Z.pow_le_mono_r 2 0); lia).
         change (2 ^ 54)%Z with 18014398509481984%Z in Hmf. nia. }
    rewrite Hfix. cbn [append]. f_equal.
    apply fixed2_digits_of; [discriminate | | exact Hdig].
    rewrite <- Eu, DecimalN.Unsigned.to_of. exact Hu.
Qed.

(** Integer parts with a leading zero lose it in the round trip. *)
Example price_leading_zero :
  toFixed2 (parseFloat (js_replace "," "." (js_trim "01,29"))) = Some "1.29".
Proof. vm_compute. reflexivity. Qed.

(** A 17-digit integer part exceeds the 53-bit significand and is rounded. *)
Example price_long_rounded :
  toFixed2 (parseFloat (js_replace "," "." (js_trim "12345678901234567,89")))
  = Some "12345678901234568.00".
Proof. vm_compute. reflexivity. Qed.

(** C6 (counterexample): the round trip does not hold for every digit
    string [D]: ["01,29"] matches the price pattern and comes back as
    ["1.29"]. *)
Lemma price_round_trip_fails :
  ~ (forall (D : list ascii) (a b : ascii),
       forallb is_digit D = true -> D <> [] -> is_digit a = true -> is_digit b = true ->
       toFixed2 (parseFloat (js_replace "," "."
         (js_trim (string_of_list_ascii (D ++ [","%char; a; b]))))) =
       Some (string_of_list_ascii (D ++ ["."%char; a; b]))).
Proof.
  intros H.
  specialize (H ["0"%char; "1"%char] "2"%char "9"%char eq_refl
                ltac:(discriminate) eq_refl eq_refl).
  vm_compute in H. discriminate H.
Qed.

(** C6: for a price string [D,ab] whose integer part [D] is a canonical
    numeral (no leading zero, or exactly ["0"]) of at most 12 digits,
    trimming, replacing the comma by a point, [parseFloat] and
    [toFixed(2)] give back [D.ab]. *)
Theorem price_round_trip (D : list ascii) (a b : ascii) :
  canonical_int D = true -> (List.length D <= 12)%nat ->
  is_digit a = true -> is_digit b = true ->
  toFixed2 (parseFloat (js_replace "," "."
    (js_trim (string_of_list_ascii (D ++ [","%char; a; b]))))) =
  Some (string_of_list_ascii (D ++ ["."%char; a; b])).
Proof.
  intros Hc Hlen Ha Hb. unfold canonical_int in Hc. apply andb_prop in Hc as [HD Hh].
  destruct D as [|h t]; [discriminate|].
  assert (Hhd : is_digit h = true)
    by (simpl in HD; apply andb_prop in HD as [Hhd _]; exact Hhd).
  rewrite js_trim_price by assumption.
  rewrite replace_comma by exact HD.
  rewrite parseFloat_price by assumption.
  destruct (Ascii.eqb h "0") eqn:E0.
  - apply Ascii.eqb_eq in E0. subst h.
    destruct t as [|c t]; [|simpl in Hh; discriminate Hh].
    digit_cases Ha; digit_cases Hb; vm_compute; reflexivity.
  - apply round_trip_nonzero; [|exact E0|exact Hlen].
    rewrite forallb_app, HD. simpl. rewrite Ha, Hb. reflexivity.
Qed.

Lemma price_round_trip_witness :
  (canonical_int ["1"%char; "2"%char] = true /\
   (List.length ["1"%char; "2"%char] <= 12)%nat /\
   is_digit "4"%char = true /\ is_digit "9"%char = true) /\
  toFixed2 (parseFloat (js_replace "," "."
    (js_trim (string_of_list_ascii (["1"%char; "2"%char] ++ [","%char; "4"%char; "9"%char])))))
  = Some (string_of_list_ascii (["1"%char; "2"%char] ++ ["."%char; "4"%char; "9"%char])).
Proof.
  assert (H1 : canonical_int ["1"%char; "2"%char] = true) by reflexivity.
  assert (H2 : (List.length ["1"%char; "2"%char] <= 12)%nat) by (simpl; lia).
  assert (H3 : is_digit "4"%char = true) by reflexivity.
  assert (H4 : is_digit "9"%char = true) by reflexivity.
  split; [repeat split; assumption|].
  exact (price_round_trip ["1"%char; "2"%char] "4"%char "9"%char H1 H2 H3 H4).
Defined.

(* ------------------------------------------------------------------ *)
(** ** Splitting at markers and the segmentation of a receipt *)

Section Segmentation.

Open Scope string_scope.

Lemma str_app_eq_app (a b c d : string) :
  a ++ b = c ++ d ->
  exists m, (c = a ++ m /\ b = m ++ d) \/ (a = c ++ m /\ d = m ++ b).
Proof.
  revert c. induction a as [|x a IH]; intros c H.
  - exists c. left. split; [reflexivity | exact H].
  - destruct c as [|y c].
    + exists (String x a). right. split; [reflexivity | symmetry; exact H].
    + simpl in H. injection H as <- H. destruct (IH c H) as [m [[-> ->]|[-> ->]]];
        exists m; [left|right]; split; reflexivity.
Qed.

Lemma drop_n_app (p q : string) : drop_n (String.length p) (p ++ q) = q.
Proof. induction p as [|c p IH]; [reflexivity|]. exact IH. Qed.

Lemma length_drop_n (n : nat) (s : string) :
  String.length (drop_n n s) = String.length s - n.
Proof.
  revert s. induction n as [|n IH]; intros s; [simpl; lia|].
  destruct s as [|c s]; [reflexivity|]. simpl. apply IH.
Qed.

Lemma split_go_fuel (f f' : nat) (sep s cur : string) :
  sep <> "" -> String.length s < f -> String.length s < f' ->
  split_go f sep s cur = split_go f' sep s cur.
Proof.
  revert f' s cur. induction f as [|f IH]; intros f' s cur Hne Hf Hf'; [lia|].
  destruct f' as [|f']; [lia|]. cbn [split_go].
  destruct s as [|c s]; [reflexivity|].
  destruct (starts_with sep (String c s)).
  - f_equal. apply IH; [exact Hne| |];
      (rewrite length_drop_n; destruct sep as [|a sep]; [contradiction| simpl in *; lia]).
  - apply IH; [exact Hne | simpl in *; lia | simpl in *; lia].
Qed.

Lemma str_app_length_eq (a b : string) : a = a ++ b -> b = "".
Proof.
  intros H. apply (f_equal String.length) in H. rewrite str_length_app in H.
  destruct b; [reflexivity | simpl in H; lia].
Qed.

Lemma starts_with_not_first (sep A B : string) :
  no_border sep -> ~ occurs sep A -> A <> "" ->
  starts_with sep (A ++ sep ++ B) = false.
Proof.
  intros Hb Hno HA. destruct (starts_with sep (A ++ sep ++ B)) eqn:E; [|reflexivity].
  exfalso. destruct (starts_with_spec _ _ E) as [r Hr].
  assert (HlA : 1 <= String.length A) by (destruct A; [contradiction | simpl; lia]).
  destruct (str_app_eq_app _ _ _ _ Hr) as [m [[Hs Hm]|[HA' _]]].
  - destruct (string_dec m "") as [->|Hm0].
    + apply Hno. exists "", "". simpl. rewrite str_app_nil, Hs, str_app_nil. reflexivity.
    + destruct (str_app_eq_app _ _ _ _ Hm) as [m' [[Hm' _]|[Hs' _]]].
      * rewrite Hm' in Hs. apply (f_equal String.length) in Hs.
        rewrite !str_length_app in Hs. lia.
      * destruct (string_dec m' "") as [->|Hm'0].
        -- rewrite str_app_nil in Hs'. rewrite <- Hs' in Hs.
           apply (f_equal String.length) in Hs. rewrite !str_length_app in Hs. lia.
        -- exact (Hb m m' A Hs' Hs Hm0 Hm'0 HA).
  - apply Hno. exists "", m. exact HA'.
Qed.

Lemma split_go_first (f : nat) (sep A B cur : string) :
  sep <> "" -> no_border sep -> ~ occurs sep A ->
  String.length (A ++ sep ++ B) < f ->
  split_go f sep (A ++ sep ++ B) cur =
  (cur ++ A) :: split_go (f - S (String.length A)) sep B "".
Proof.
  revert f cur. induction A as [|a A IH]; intros f cur Hne Hb Hno Hf.
  - destruct f as [|f]; [simpl in Hf; lia|]. destruct sep as [|c sep']; [contradiction|].
    change (split_go (S f) (String c sep') ("" ++ String c sep' ++ B) cur) with
      (if starts_with (String c sep') (String c sep' ++ B)
       then cur :: split_go f (String c sep') (drop_n (String.length (String c sep')) (String c sep' ++ B)) ""
       else split_go f (String c sep') (sep' ++ B) (cur ++ String c "")).
    rewrite starts_with_app, drop_n_app, str_app_nil. simpl. rewrite Nat.sub_0_r. reflexivity.
  - destruct f as [|f]; [simpl in Hf; lia|].
    change (String a A ++ sep ++ B) with (String a (A ++ sep ++ B)). cbn [split_go].
    pose proof (starts_with_not_first sep (String a A) B Hb Hno ltac:(discriminate)) as E.
    cbn [append] in E. rewrite E.
    rewrite IH; [| exact Hne | exact Hb | | simpl in Hf; lia].
    + rewrite str_app_assoc. reflexivity.
    + intros [p [q Hpq]]. apply Hno. exists (String a p), q. rewrite Hpq. reflexivity.
Qed.

(** Splitting at a marker without border: the text before its first
    occurrence is the first piece. *)
Lemma js_split_first (sep A B : string) :
  sep <> "" -> no_border sep -> ~ occurs sep A ->
  js_split sep (A ++ sep ++ B) = A :: js_split sep B.
Proof.
  intros Hne Hb Hno. unfold js_split.
  rewrite split_go_first by (auto; lia). f_equal.
  apply split_go_fuel; [exact Hne | | lia].
  rewrite !str_length_app. destruct sep as [|c sep]; [contradiction|simpl; lia].
Qed.

Lemma js_str_includes_occurs (sep s : string) :
  js_str_includes sep s = true <-> occurs sep s.
Proof.
  induction s as [|c s IH]; simpl.
  - split.
    + intros H. destruct sep; [exists "", ""; reflexivity | simpl in H; discriminate].
    + intros [p [q Hpq]]. destruct p; [|discriminate]. destruct sep; [reflexivity|discriminate].
  - rewrite orb_true_iff, IH. split.
    + intros [H|[p [q Hpq]]].
      * destruct (starts_with_spec _ _ H) as [q Hq]. exists "", q. exact Hq.
      * exists (String c p), q. rewrite Hpq. reflexivity.
    + intros [[|c' p] [q Hpq]].
      * left. simpl in Hpq. rewrite Hpq. apply starts_with_app.
      * right. injection Hpq as _ Hpq. exists p, q. exact Hpq.
Qed.

Lemma js_str_includes_false (sep s : string) :
  js_str_includes sep s = false -> ~ occurs sep s.
Proof. intros H Ho. apply js_str_includes_occurs in Ho. congruence. Qed.

(** A separator whose last character occurs nowhere else in it has no border. *)
Lemma no_border_last (s0 : string) (z : ascii) :
  ~ In z (list_ascii_of_string s0) -> no_border (s0 ++ String z "").
Proof.
  intros Hz u v w Huv Hwu Hu Hv Hw.
  apply (f_equal list_ascii_of_string) in Huv, Hwu.
  rewrite !list_ascii_of_string_app in Huv, Hwu. cbn [list_ascii_of_string] in Huv, Hwu.
  destruct (exists_last (l := list_ascii_of_string u)) as [u0 [zu Hu0]].
  { destruct u; [contradiction | discriminate]. }
  destruct (exists_last (l := list_ascii_of_string v)) as [v0 [zv Hv0]].
  { destruct v; [contradiction | discriminate]. }
  rewrite Hu0, app_assoc in Hwu. apply app_inj_tail in Hwu as [_ <-].
  rewrite Hu0, Hv0, app_assoc in Huv.
  apply app_inj_tail in Huv as [Hs0 _].
  apply Hz. rewrite Hs0. apply in_or_app. left. apply in_or_app. right. left. reflexivity.
Qed.

Ltac not_in_ascii := let H := fresh in intros H; vm_compute in H;
  repeat (destruct H as [H|H]; [discriminate H|]); exact H.

Lemma no_border_filiale : no_border "Filiale:".
Proof. apply (no_border_last "Filiale" ":"). not_in_ascii. Qed.

Lemma no_border_summe : no_border "<!-- SUMME -->".
Proof. apply (no_border_last "<!-- SUMME --" ">"). not_in_ascii. Qed.

Lemma split_go_head_prefix (f : nat) (sep s cur : string) :
  sep <> "" -> String.length s < f ->
  exists y q rest, split_go f sep s cur = (cur ++ y) :: rest /\ s = y ++ q /\
                   ~ occurs sep y.
Proof.
  assert (Hnil : sep <> "" -> ~ occurs sep "").
  { intros Hne [p [q Hpq]]. destruct p; [destruct sep; [contradiction | discriminate] | discriminate]. }
  revert s cur. induction f as [|f IH]; intros s cur Hne Hf; [lia|].
  destruct s as [|c s'].
  - exists "", "", []. split; [cbn [split_go]; rewrite str_app_nil; reflexivity|].
    split; [reflexivity | exact (Hnil Hne)].
  - cbn [split_go]. destruct (starts_with sep (String c s')) eqn:Hsw.
    + eexists "", (String c s'), _. split; [rewrite str_app_nil; reflexivity|].
      split; [reflexivity | exact (Hnil Hne)].
    + destruct (IH s' (cur ++ String c "") Hne ltac:(simpl in Hf; lia))
        as [y [q [rest [E [Hs Hy]]]]].
      exists (String c y), q, rest. split; [rewrite E, str_app_assoc; reflexivity|].
      split; [simpl; rewrite Hs; reflexivity|].
      intros [[|c0 p] [q0 Hpq]].
      * simpl in Hpq. rewrite Hs in Hsw. change (String c (y ++ q)) with (String c y ++ q) in Hsw.
        rewrite Hpq, str_app_assoc, starts_with_app in Hsw. discriminate.
      * injection Hpq as _ Hpq. apply Hy. exists p, q0. exact Hpq.
Qed.

(** The first piece of a split is a prefix of the string without the
    separator in it. *)
Lemma js_split_head_prefix (sep s : string) :
  sep <> "" ->
  exists y q rest, js_split sep s = y :: rest /\ s = y ++ q /\ ~ occurs sep y.
Proof.
  intros Hne. unfold js_split.
  destruct (split_go_head_prefix (S (String.length s)) sep s "" Hne ltac:(lia))
    as [y [q [rest [E H]]]].
  exists y, q, rest. rewrite E. split; [reflexivity | exact H].
Qed.

Lemma occurs_app_l (sep a b : string) : occurs sep a -> occurs sep (a ++ b).
Proof. intros [p [q ->]]. exists p, (q ++ b). rewrite !str_app_assoc. reflexivity. Qed.

Lemma single_app (z : ascii) (a b : string) : String z "" = a ++ b -> b <> "" -> a = "".
Proof.
  intros H Hb. destruct a as [|x a]; [reflexivity|]. simpl in H. injection H as _ H.
  destruct a, b; simpl in H; try discriminate. contradiction.
Qed.

(** An occurrence of a string ending in [z], inside [B ++ m] where [m]
    has no [z], lies inside [B]. *)
Lemma occurs_last_char (W B m : string) (z : ascii) :
  occurs (W ++ String z "") (B ++ m) -> ~ occurs (String z "") m ->
  occurs (W ++ String z "") B.
Proof.
  intros [p [q H]] Hm. rewrite <- str_app_assoc in H.
  destruct (str_app_eq_app _ _ _ _ H) as [k [[H1 H2] | [H1 _]]].
  - destruct (string_dec k "") as [->|Hk].
    + exists p, "". rewrite str_app_nil in H1. rewrite <- H1, str_app_nil. reflexivity.
    + exfalso. apply Hm. rewrite H2. apply occurs_app_l.
      rewrite <- str_app_assoc in H1.
      destruct (str_app_eq_app _ _ _ _ H1) as [k' [[_ Hk'] | [_ Hk']]].
      * rewrite (single_app z k' k Hk' Hk) in Hk'. simpl in Hk'. rewrite <- Hk'.
        exists "", "". reflexivity.
      * rewrite Hk'. exists k', "". reflexivity.
  - exists p, k. rewrite H1, str_app_assoc. reflexivity.
Qed.

(** A proper prefix of [<!-- SUMME -->] holds no [>]. *)
Lemma summe_prefix_no_gt (m k : string) :
  "<!-- SUMME -->" = m ++ k -> k <> "" -> ~ occurs ">" m.
Proof.
  intros H Hk Hm. change "<!-- SUMME -->" with ("<!-- SUMME --" ++ ">") in H.
  assert (H0 : ~ occurs ">" "<!-- SUMME --") by (apply js_str_includes_false; reflexivity).
  destruct (str_app_eq_app _ _ _ _ H) as [k' [[Hm' Hk'] | [HS0 _]]].
  - rewrite (single_app ">" k' k Hk' Hk), str_app_nil in Hm'. subst m. contradiction.
  - apply H0. rewrite HS0. apply occurs_app_l. exact Hm.
Qed.

(** Whenever the body, after its first [Filiale:], contains
    [<!-- SUMME -->] with no [<!-- ZAHLUNGEN -->] between the two (the
    order of the Netto e-mails), [extractNettoReceiptData] of
    unnamed/part_000 throws a [TypeError]: it cuts the span at the first
    [<!-- SUMME -->] (or at a later [Filiale:]) and then looks for
    [<!-- ZAHLUNGEN -->] in it, so [lineItemsRaw] is [undefined]. *)
Theorem gas_extract_fails_on_ordered_receipt (A B C : string) :
  js_str_includes "Filiale:" A = false ->
  js_str_includes "<!-- ZAHLUNGEN -->" B = false ->
  Gas.extractNettoReceiptData (A ++ "Filiale:" ++ B ++ "<!-- SUMME -->" ++ C) = inr TypeError.
Proof.
  intros HA HZ. apply js_str_includes_false in HZ.
  unfold Gas.extractNettoReceiptData, extractStoreAndPurchaseString.
  rewrite (js_split_first "Filiale:" A _ ltac:(discriminate) no_border_filiale
             (js_str_includes_false _ _ HA)).
  cbn [nth_error].
  destruct (js_split_head_prefix "Filiale:" (B ++ "<!-- SUMME -->" ++ C) ltac:(discriminate))
    as [p1 [q1 [r1 [E1 [H1 _]]]]].
  rewrite E1. cbn [nth_error].
  destruct (js_split_head_prefix "<!-- SUMME -->" p1 ltac:(discriminate))
    as [cut [q2 [r2 [E2 [H2 Hcut]]]]].
  rewrite E2. cbn [nth_error].
  assert (Hz : ~ occurs "<!-- ZAHLUNGEN -->" cut).
  { intros Hocc. rewrite H2, str_app_assoc in H1.
    destruct (str_app_eq_app _ _ _ _ (eq_sym H1)) as [m [[HB _] | [Hc Hm]]].
    - apply HZ. rewrite HB. apply occurs_app_l. exact Hocc.
    - destruct (str_app_eq_app _ _ _ _ (eq_sym Hm)) as [k [[HS _] | [Hmk _]]].
      + destruct (string_dec k "") as [->|Hk].
        * rewrite str_app_nil in HS. apply Hcut. rewrite Hc, <- HS.
          exists B, "". rewrite str_app_nil. reflexivity.
        * apply HZ. rewrite Hc in Hocc.
          exact (occurs_last_char "<!-- ZAHLUNGEN --" B m ">" Hocc
                   (summe_prefix_no_gt m k HS Hk)).
      + apply Hcut. rewrite Hc, Hmk. exists B, k. reflexivity. }
  rewrite (js_split_absent "<!-- ZAHLUNGEN -->" cut ltac:(discriminate) Hz). reflexivity.
Qed.

Lemma gas_extract_fails_on_ordered_receipt_witness :
  (js_str_includes "Filiale:" "<body>" = false /\
   js_str_includes "<!-- ZAHLUNGEN -->" "Netto<!-- WARENKORB -->items" = false) /\
  Gas.extractNettoReceiptData ("<body>" ++ "Filiale:" ++ "Netto<!-- WARENKORB -->items" ++
    "<!-- SUMME -->" ++ "total<!-- ZAHLUNGEN --></body>") = inr TypeError.
Proof.
  assert (H1 : js_str_includes "Filiale:" "<body>" = false) by reflexivity.
  assert (H2 : js_str_includes "<!-- ZAHLUNGEN -->" "Netto<!-- WARENKORB -->items" = false)
    by reflexivity.
  split; [split; assumption|].
  exact (gas_extract_fails_on_ordered_receipt _ _ _ H1 H2).
Defined.



Lemma no_border_nl : no_border nl_s.
Proof. apply (no_border_last "" nl). intros []. Qed.

Lemma nl_not_occurs (l : string) :
  js_str_includes nl_s l = false -> ~ occurs nl_s l.
Proof. apply js_str_includes_false. Qed.

(** [extractStoreAddress] keeps the second and third lines of its input
    (each with its first [<br>] removed and trimmed), joined by [", "],
    whatever follows the third line. *)
Theorem extractStoreAddress_lines (l0 l1 l2 rest : string) :
  js_str_includes nl_s l0 = false ->
  js_str_includes nl_s l1 = false ->
  js_str_includes nl_s l2 = false ->
  (rest = "" \/ exists r, rest = nl_s ++ r) ->
  extractStoreAddress (l0 ++ nl_s ++ l1 ++ nl_s ++ l2 ++ rest) =
  js_trim (js_replace "<br>" "" l1) ++ ", " ++ js_trim (js_replace "<br>" "" l2).
Proof.
  intros H0 H1 H2 Hr. unfold extractStoreAddress.
  assert (Hne : nl_s <> "") by discriminate.
  rewrite (js_split_first nl_s l0 _ Hne no_border_nl (nl_not_occurs _ H0)).
  rewrite (js_split_first nl_s l1 _ Hne no_border_nl (nl_not_occurs _ H1)).
  destruct Hr as [->|[r ->]].
  - rewrite str_app_nil, (js_split_absent nl_s l2 Hne (nl_not_occurs _ H2)). reflexivity.
  - rewrite (js_split_first nl_s l2 _ Hne no_border_nl (nl_not_occurs _ H2)). reflexivity.
Qed.

Lemma no_border_warenkorb : no_border "<!-- WARENKORB -->".
Proof. apply (no_border_last "<!-- WARENKORB --" ">"). not_in_ascii. Qed.

Lemma no_border_zahlungen : no_border "<!-- ZAHLUNGEN -->".
Proof. apply (no_border_last "<!-- ZAHLUNGEN --" ">"). not_in_ascii. Qed.

(** On a receipt with its markers in the order [Filiale:],
    [<!-- WARENKORB -->], [<!-- SUMME -->], [<!-- ZAHLUNGEN -->] (each marker
    not repeated where it would be found first), [extractNettoReceiptData]
    of src/extractNettoReceiptData.js returns the address of the text
    between [Filiale:] and [<!-- WARENKORB -->] and the items of the text
    between [<!-- WARENKORB -->] and [<!-- SUMME -->]. *)
Theorem src_extract_ordered_receipt (A B C D E : string) :
  js_str_includes "Filiale:" A = false ->
  js_str_includes "Filiale:"
    (B ++ "<!-- WARENKORB -->" ++ C ++ "<!-- SUMME -->" ++ D ++ "<!-- ZAHLUNGEN -->" ++ E) = false ->
  js_str_includes "<!-- ZAHLUNGEN -->" (B ++ "<!-- WARENKORB -->" ++ C ++ "<!-- SUMME -->" ++ D) = false ->
  js_str_includes "<!-- WARENKORB -->" B = false ->
  js_str_includes "<!-- WARENKORB -->" (C ++ "<!-- SUMME -->" ++ D) = false ->
  js_str_includes "<!-- SUMME -->" C = false ->
  Src.extractNettoReceiptData
    (A ++ "Filiale:" ++ B ++ "<!-- WARENKORB -->" ++ C ++ "<!-- SUMME -->" ++ D
       ++ "<!-- ZAHLUNGEN -->" ++ E)
  = inl (extractStoreAddress B, extractLineItems C).
Proof.
  intros HA HR HZ HB HW HC. unfold Src.extractNettoReceiptData.
  rewrite (js_split_first "Filiale:" A _ ltac:(discriminate) no_border_filiale
             (js_str_includes_false _ _ HA)).
  cbn [nth_error].
  rewrite (js_split_absent "Filiale:" _ ltac:(discriminate) (js_str_includes_false _ _ HR)).
  cbn [nth_error].
  replace (B ++ "<!-- WARENKORB -->" ++ C ++ "<!-- SUMME -->" ++ D ++ "<!-- ZAHLUNGEN -->" ++ E)
    with ((B ++ "<!-- WARENKORB -->" ++ C ++ "<!-- SUMME -->" ++ D) ++ "<!-- ZAHLUNGEN -->" ++ E)
    by (rewrite !str_app_assoc; reflexivity).
  rewrite (js_split_first "<!-- ZAHLUNGEN -->" _ E ltac:(discriminate) no_border_zahlungen
             (js_str_includes_false _ _ HZ)).
  cbn [nth_error].
  rewrite (js_split_first "<!-- WARENKORB -->" B _ ltac:(discriminate) no_border_warenkorb
             (js_str_includes_false _ _ HB)).
  cbn [nth_error].
  rewrite (js_split_absent "<!-- WARENKORB -->" _ ltac:(discriminate) (js_str_includes_false _ _ HW)).
  cbn [nth_error].
  rewrite (js_split_first "<!-- SUMME -->" C D ltac:(discriminate) no_border_summe
             (js_str_includes_false _ _ HC)).
  reflexivity.
Qed.

Lemma src_extract_ordered_receipt_witness :
  (js_str_includes "Filiale:" "<body>" = false /\
   js_str_includes "Filiale:"
     ("addr" ++ "<!-- WARENKORB -->" ++ sampleItemsRaw ++ "<!-- SUMME -->" ++ "total"
        ++ "<!-- ZAHLUNGEN -->" ++ "</body>") = false /\
   js_str_includes "<!-- ZAHLUNGEN -->"
     ("addr" ++ "<!-- WARENKORB -->" ++ sampleItemsRaw ++ "<!-- SUMME -->" ++ "total") = false /\
   js_str_includes "<!-- WARENKORB -->" "addr" = false /\
   js_str_includes "<!-- WARENKORB -->" (sampleItemsRaw ++ "<!-- SUMME -->" ++ "total") = false /\
   js_str_includes "<!-- SUMME -->" sampleItemsRaw = false) /\
  Src.extractNettoReceiptData
    ("<body>" ++ "Filiale:" ++ "addr" ++ "<!-- WARENKORB -->" ++ sampleItemsRaw ++ "<!-- SUMME -->"
       ++ "total" ++ "<!-- ZAHLUNGEN -->" ++ "</body>")
  = inl (extractStoreAddress "addr", extractLineItems sampleItemsRaw).
Proof.
  assert (H1 : js_str_includes "Filiale:" "<body>" = false) by reflexivity.
  assert (H2 : js_str_includes "Filiale:"
     ("addr" ++ "<!-- WARENKORB -->" ++ sampleItemsRaw ++ "<!-- SUMME -->" ++ "total"
        ++ "<!-- ZAHLUNGEN -->" ++ "</body>") = false) by (vm_compute; reflexivity).
  assert (H3 : js_str_includes "<!-- ZAHLUNGEN -->"
     ("addr" ++ "<!-- WARENKORB -->" ++ sampleItemsRaw ++ "<!-- SUMME -->" ++ "total") = false)
    by (vm_compute; reflexivity).
  assert (H4 : js_str_includes "<!-- WARENKORB -->" "addr" = false) by reflexivity.
  assert (H5 : js_str_includes "<!-- WARENKORB -->" (sampleItemsRaw ++ "<!-- SUMME -->" ++ "total")
    = false) by (vm_compute; reflexivity).
  assert (H6 : js_str_includes "<!-- SUMME -->" sampleItemsRaw = false) by (vm_compute; reflexivity).
  split; [repeat split; assumption|].
  exact (src_extract_ordered_receipt _ _ _ _ _ H1 H2 H3 H4 H5 H6).
Defined.

Lemma extractStoreAddress_lines_witness :
  (js_str_includes nl_s "" = false /\
   js_str_includes nl_s "<br>Netto City-Filiale" = false /\
   js_str_includes nl_s "<br>Hauptstr. 123, 12345 Berlin" = false /\
   (nl_s ++ "<br>extra" = "" \/ exists r, nl_s ++ "<br>extra" = nl_s ++ r)) /\
  extractStoreAddress ("" ++ nl_s ++ "<br>Netto City-Filiale" ++ nl_s
                          ++ "<br>Hauptstr. 123, 12345 Berlin" ++ nl_s ++ "<br>extra") =
  js_trim (js_replace "<br>" "" "<br>Netto City-Filiale") ++ ", "
    ++ js_trim (js_replace "<br>" "" "<br>Hauptstr. 123, 12345 Berlin").
Proof.
  assert (H1 : js_str_includes nl_s "" = false) by reflexivity.
  assert (H2 : js_str_includes nl_s "<br>Netto City-Filiale" = false) by (vm_compute; reflexivity).
  assert (H3 : js_str_includes nl_s "<br>Hauptstr. 123, 12345 Berlin" = false)
    by (vm_compute; reflexivity).
  assert (H4 : nl_s ++ "<br>extra" = "" \/ exists r, nl_s ++ "<br>extra" = nl_s ++ r)
    by (right; exists "<br>extra"; reflexivity).
  split; [repeat split; assumption|].
  exact (extractStoreAddress_lines _ _ _ _ H1 H2 H3 H4).
Defined.

End Segmentation.

(* ------------------------------------------------------------------ *)
(** ** The fields of the extracted line items *)

Lemma trim_start_suffix (l : list ascii) : exists p, l = p ++ trim_start_l l.
Proof.
  induction l as [|a l IH]; simpl; [exists []; reflexivity|].
  destruct (is_js_space a); [|exists []; reflexivity].
  destruct IH as [p Hp]. exists (a :: p). simpl. f_equal. exact Hp.
Qed.

Lemma trim_start_length (l : list ascii) : List.length (trim_start_l l) <= List.length l.
Proof. destruct (trim_start_suffix l) as [p Hp]. rewrite Hp at 2. rewrite length_app. lia. Qed.

Lemma trim_start_fixed (l : list ascii) :
  trim_start_l l = l <-> (l = [] \/ exists a l', l = a :: l' /\ is_js_space a = false).
Proof.
  destruct l as [|a l]; simpl; [split; auto|].
  destruct (is_js_space a) eqn:E; split.
  - intros H. pose proof (trim_start_length l) as Hl. rewrite H in Hl. simpl in Hl. lia.
  - intros [H|[a' [l' [[= <- <-] H]]]]; [discriminate | congruence].
  - intros _. right. eauto.
  - reflexivity.
Qed.

Lemma trim_start_idem (l : list ascii) : trim_start_l (trim_start_l l) = trim_start_l l.
Proof.
  induction l as [|a l IH]; simpl; [reflexivity|].
  destruct (is_js_space a) eqn:E; [exact IH|]. simpl. rewrite E. reflexivity.
Qed.

Lemma trim_end_keeps_head (u : list ascii) :
  trim_start_l u = u ->
  trim_start_l (rev (trim_start_l (rev u))) = rev (trim_start_l (rev u)).
Proof.
  intros Hu. destruct (trim_start_suffix (rev u)) as [p Hp].
  apply trim_start_fixed. destruct (rev (trim_start_l (rev u))) as [|a w] eqn:E; [left; reflexivity|].
  right. exists a, w. split; [reflexivity|].
  assert (Hu' : u = (a :: w) ++ rev p).
  { rewrite <- E, <- rev_app_distr, <- Hp, rev_involutive. reflexivity. }
  apply trim_start_fixed in Hu as [Hu|[a' [l' [Hal Ha]]]].
  - rewrite Hu in Hu'. discriminate.
  - rewrite Hal in Hu'. injection Hu' as <- _. exact Ha.
Qed.

(** [trim] is idempotent. *)
Lemma js_trim_idem (s : string) : js_trim (js_trim s) = js_trim s.
Proof.
  unfold js_trim. rewrite list_ascii_of_string_of_list_ascii. f_equal.
  set (u := trim_start_l (list_ascii_of_string s)).
  assert (Hu : trim_start_l u = u) by apply trim_start_idem.
  rewrite (trim_end_keeps_head u Hu), rev_involutive, trim_start_idem. reflexivity.
Qed.

(** Matching [\d] and [\d*]. *)
Lemma mt_digit_in (s : list ascii) (c : capture) (y : mstate) :
  In y (mt RDigit s c) -> exists d s', s = d :: s' /\ is_digit d = true /\ y = (s', c).
Proof.
  destruct s as [|d s']; simpl; [intros []|].
  destruct (is_digit d) eqn:E; [|intros []]. intros [<-|[]]. eauto.
Qed.

Lemma star_digit_in (g : bool) (n : nat) (s : list ascii) (c : capture) (y : mstate) :
  In y (star_go (mt RDigit) g n s c) ->
  exists D, forallb is_digit D = true /\ s = D ++ fst y /\ snd y = c.
Proof.
  revert s c. induction n as [|n IH]; intros s c H.
  - destruct H as [<-|[]]. exists []. auto.
  - cbn [star_go] in H.
    assert (Hmore : In y (flat_map (fun p : mstate =>
               if Nat.ltb (List.length (fst p)) (List.length s)
               then star_go (mt RDigit) g n (fst p) (snd p) else []) (mt RDigit s c)) ->
              exists D, forallb is_digit D = true /\ s = D ++ fst y /\ snd y = c).
    { intros Hy. apply in_flat_map in Hy as [p [Hp Hy]].
      apply mt_digit_in in Hp as [d [s' [-> [Hd ->]]]]. cbn [fst snd] in Hy.
      destruct (Nat.ltb _ _); [|destruct Hy].
      destruct (IH s' c Hy) as [D [HD [Hs Hc]]].
      exists (d :: D). simpl. rewrite Hd, HD, Hs. auto. }
    destruct g.
    + apply in_app_or in H as [H|[<-|[]]]; [exact (Hmore H)|]. exists []. auto.
    + destruct H as [<-|H]; [exists []; auto | exact (Hmore H)].
Qed.

Lemma mt_plus_digit_in (g : bool) (s : list ascii) (c : capture) (y : mstate) :
  In y (mt (RPlus g RDigit) s c) ->
  exists D, D <> [] /\ forallb is_digit D = true /\ s = D ++ fst y /\ snd y = c.
Proof.
  unfold RPlus. rewrite mt_seq. intros H. apply in_flat_map in H as [p [Hp H]].
  apply mt_digit_in in Hp as [d [s' [-> [Hd ->]]]]. cbn [fst snd mt] in H.
  destruct (star_digit_in _ _ _ _ _ H) as [D [HD [Hs Hc]]].
  exists (d :: D). split; [discriminate|]. simpl. rewrite Hd, HD, Hs. auto.
Qed.

Lemma price_group_in (u : list ascii) (c : capture) (z : mstate) :
  In z (mt (RSeq (RPlus true RDigit) (RSeq (RChar ",") (RSeq RDigit RDigit))) u c) ->
  exists D a b, D <> [] /\ forallb is_digit D = true /\ is_digit a = true /\
    is_digit b = true /\ u = D ++ [","%char; a; b] ++ fst z /\ snd z = c.
Proof.
  rewrite mt_seq. intros H. apply in_flat_map in H as [p [Hp H]].
  destruct (mt_plus_digit_in _ _ _ _ Hp) as [D [HD0 [HD [Hu Hc]]]].
  rewrite mt_seq in H. apply in_flat_map in H as [q [Hq H]].
  apply mt_char_in in Hq as [s1 [Hs1 ->]]. cbn [fst snd] in H.
  rewrite mt_seq in H. apply in_flat_map in H as [r [Hr H]].
  apply mt_digit_in in Hr as [a [s2 [-> [Ha ->]]]]. cbn [fst snd] in H.
  apply mt_digit_in in H as [b [s3 [-> [Hb ->]]]].
  exists D, a, b. repeat split; auto. rewrite Hu, Hs1. reflexivity.
Qed.

Lemma mt_lit_eps_in (w : string) (t : list ascii) (c : capture) (x : mstate) :
  In x (mt (RLit w REps) t c) -> snd x = c.
Proof. intros H. apply mt_lit_in in H as [t' [_ [<-|[]]]]. reflexivity. Qed.

Lemma firstn_prefix (P r : list ascii) :
  firstn (List.length (P ++ r) - List.length r) (P ++ r) = P.
Proof.
  rewrite length_app. replace (List.length P + List.length r - List.length r) with (List.length P) by lia.
  induction P as [|a P IH]; [reflexivity|]. simpl. f_equal. exact IH.
Qed.

Lemma price_mt_capture (s : list ascii) (x : mstate) :
  In x (mt priceRegex s None) ->
  exists D a b, D <> [] /\ forallb is_digit D = true /\ is_digit a = true /\
    is_digit b = true /\ snd x = Some (D ++ [","%char; a; b]).
Proof.
  unfold priceRegex. intros H. apply mt_lit_in in H as [t [_ H]].
  rewrite mt_seq in H. apply in_flat_map in H as [y [Hy H]].
  apply mt_plus_any_in in Hy as [j [_ ->]]. cbn [fst snd] in H.
  rewrite mt_seq in H. apply in_flat_map in H as [y2 [Hy2 H]].
  apply mt_char_in in Hy2 as [s2 [_ ->]]. cbn [fst snd] in H.
  rewrite mt_seq in H. apply in_flat_map in H as [z [Hz H]].
  apply mt_group_in in Hz as [z' [Hz' ->]]. cbn [fst snd] in H.
  apply mt_lit_eps_in in H. rewrite H.
  destruct (price_group_in _ _ _ Hz') as [D [a [b [HD0 [HD [Ha [Hb [Hu _]]]]]]]].
  exists D, a, b. repeat split; auto. rewrite Hu, app_assoc, firstn_prefix. reflexivity.
Qed.

Lemma search_some (r : regex) (s : list ascii) (c : capture) :
  search r s = Some c -> exists n x, In x (mt r (skipn n s) None) /\ c = snd x.
Proof.
  induction s as [|a s IH]; simpl.
  - destruct (mt r [] None) as [|p l] eqn:E; [discriminate|].
    intros [= <-]. exists 0, p. simpl. rewrite E. simpl. auto.
  - destruct (mt r (a :: s) None) as [|p l] eqn:E.
    + intros H. destruct (IH H) as [n [x Hx]]. exists (S n), x. exact Hx.
    + intros [= <-]. exists 0, p. simpl. rewrite E. simpl. auto.
Qed.

(** A match of [priceRegex] captures a nonempty run of digits, a comma
    and two digits. *)
Lemma js_match_price (line : string) (m : capture) :
  js_match priceRegex line = Some m ->
  exists D a b, D <> [] /\ forallb is_digit D = true /\ is_digit a = true /\
    is_digit b = true /\ m = Some (D ++ [","%char; a; b]).
Proof.
  unfold js_match. intros H. apply search_some in H as [n [x [Hx ->]]].
  exact (price_mt_capture _ _ Hx).
Qed.

Lemma price_string_value (D : list ascii) (a b : ascii) :
  D <> [] -> forallb is_digit D = true -> is_digit a = true -> is_digit b = true ->
  parseFloat (js_replace "," "." (js_trim (string_of_list_ascii (D ++ [","%char; a; b])))) =
  decimal_to_number (N.of_uint (uint_of_digits (D ++ [a; b]))) 2.
Proof.
  intros HD0 HD Ha Hb. destruct D as [|h t]; [contradiction|].
  assert (Hh : is_digit h = true) by (simpl in HD; apply andb_prop in HD as [Hh _]; exact Hh).
  rewrite js_trim_price by assumption. rewrite replace_comma by exact HD.
  apply parseFloat_price; assumption.
Qed.

Lemma trimmed_field (m : capture) (d : string) :
  option_map js_trim (group1 m) = Some d -> js_trim d = d.
Proof.
  destruct (group1 m) as [g|]; simpl; [intros [= <-]; apply js_trim_idem | discriminate].
Qed.

Lemma price_field (line : string) (m : capture) (x : Number) :
  js_match priceRegex line = Some m ->
  option_map parseFloat
    (option_map (fun g => js_replace "," "." (js_trim g)) (group1 m)) = Some x ->
  price_value x.
Proof.
  intros Hm Hx. destruct (js_match_price _ _ Hm) as [D [a [b [HD0 [HD [Ha [Hb ->]]]]]]].
  simpl in Hx. injection Hx as <-. exists D, a, b. repeat split; auto.
  apply price_string_value; assumption.
Qed.

Lemma scanned_empty : scanned_item emptyLineItem.
Proof. repeat split; simpl; discriminate. Qed.

Lemma scan_step_ok (st : ScanState) (line : string) :
  scanned_item (currentLineItem st) ->
  scanned_item (currentLineItem (fst (scan_step st line))) /\
  (forall it, snd (scan_step st line) = Some it -> scanned_item it).
Proof.
  intros [Hd [Hp Ht]]. unfold scan_step.
  destruct (js_match rowDividerRegex line) as [m0|].
  { split; [exact scanned_empty|]. simpl. destruct (has_data _); [|discriminate].
    intros it [= <-]. repeat split; assumption. }
  destruct (if searchItem st then js_match itemRegex line else None) as [m|].
  { split; [|discriminate]. repeat split; simpl; auto. apply trimmed_field. }
  destruct (searchPrice st); [destruct (js_match priceRegex line) as [m|] eqn:Em|].
  { split; [|discriminate]. repeat split; simpl; auto. intros x. apply (price_field line m x Em). }
  all: (destruct (if searchDetail st then js_match itemDetailsRegex line else None) as [m|];
        [split; [repeat split; simpl; auto; apply trimmed_field | discriminate]
        | split; [repeat split; auto | discriminate]]).
Qed.

Lemma scan_lines_ok (st : ScanState) (acc : list LineItem) (lines : list string) :
  scanned_item (currentLineItem st) -> Forall scanned_item acc ->
  scanned_item (currentLineItem (fst (scan_lines st acc lines))) /\
  Forall scanned_item (snd (scan_lines st acc lines)).
Proof.
  revert st acc. induction lines as [|line rest IH]; intros st acc Hst Hacc; [auto|].
  cbn [scan_lines]. destruct (scan_step st line) as [st' o] eqn:E.
  destruct (scan_step_ok st line Hst) as [H1 H2]. rewrite E in H1, H2. cbn [fst snd] in H1, H2.
  apply IH; [exact H1|]. destruct o as [it|]; simpl; [|exact Hacc].
  apply Forall_app. split; [exact Hacc|]. constructor; [apply H2; reflexivity | constructor].
Qed.

Lemma scanLineItems_ok (lines : list string) : Forall scanned_item (scanLineItems lines).
Proof.
  unfold scanLineItems.
  destruct (scan_lines_ok initScan [] lines scanned_empty (Forall_nil _)) as [H1 H2].
  destruct (scan_lines initScan [] lines) as [st items]. cbn [fst snd] in H1, H2.
  destruct (has_data _); [|exact H2].
  apply Forall_app. split; [exact H2 | constructor; [exact H1 | constructor]].
Qed.

(** Every description and every details text of an extracted line item is
    already trimmed: [trim] leaves it unchanged. *)
Theorem extractLineItems_trimmed (lineItemsRaw : string) (it : LineItem) :
  In it (extractLineItems lineItemsRaw) ->
  (forall d, description it = Some d -> js_trim d = d) /\
  (forall d, details it = Some d -> js_trim d = d).
Proof.
  intros H. pose proof (scanLineItems_ok (extractLineItemsArray lineItemsRaw)) as Hok.
  rewrite Forall_forall in Hok. destruct (Hok it H) as [Hd [_ Ht]]. auto.
Qed.

(** Every price of an extracted line item is the value [parseFloat] gives
    to a price cell [D,ab]: the binary64 number nearest to [Dab / 100]. *)
Theorem extractLineItems_prices (lineItemsRaw : string) (it : LineItem) (x : Number) :
  In it (extractLineItems lineItemsRaw) -> totalPrice it = Some x ->
  exists D a b, D <> [] /\ forallb is_digit D = true /\ is_digit a = true /\
    is_digit b = true /\ x = decimal_to_number (N.of_uint (uint_of_digits (D ++ [a; b]))) 2.
Proof.
  intros H Hx. pose proof (scanLineItems_ok (extractLineItemsArray lineItemsRaw)) as Hok.
  rewrite Forall_forall in Hok. destruct (Hok it H) as [_ [Hp _]]. exact (Hp x Hx).
Qed.

Lemma extractLineItems_prices_witness :
  (In milchItem (extractLineItems sampleItemsRaw) /\ totalPrice milchItem = Some num_1_29) /\
  exists D a b, D <> [] /\ forallb is_digit D = true /\ is_digit a = true /\
    is_digit b = true /\ num_1_29 = decimal_to_number (N.of_uint (uint_of_digits (D ++ [a; b]))) 2.
Proof.
  assert (H1 : In milchItem (extractLineItems sampleItemsRaw)) by (vm_compute; left; reflexivity).
  assert (H2 : totalPrice milchItem = Some num_1_29) by reflexivity.
  split; [split; assumption|].
  exact (extractLineItems_prices sampleItemsRaw milchItem num_1_29 H1 H2).
Defined.

Lemma extractLineItems_trimmed_witness :
  In milchItem (extractLineItems sampleItemsRaw) /\
  (forall d, description milchItem = Some d -> js_trim d = d) /\
  (forall d, details milchItem = Some d -> js_trim d = d).
Proof.
  assert (H1 : In milchItem (extractLineItems sampleItemsRaw)) by (vm_compute; left; reflexivity).
  split; [assumption|].
  exact (extractLineItems_trimmed sampleItemsRaw milchItem H1).
Defined.

(* ------------------------------------------------------------------ *)
(** ** The store address is one line *)

Lemma drop_n_chars (n : nat) (s : string) (a : ascii) :
  In a (list_ascii_of_string (drop_n n s)) -> In a (list_ascii_of_string s).
Proof.
  revert s. induction n as [|n IH]; intros s H; [exact H|].
  destruct s as [|c s]; [exact H|]. right. exact (IH s H).
Qed.

Lemma split_go_no_char (f : nat) (z : ascii) (s cur p : string) :
  String.length s < f -> ~ In z (list_ascii_of_string cur) ->
  In p (split_go f (String z EmptyString) s cur) -> ~ In z (list_ascii_of_string p).
Proof.
  revert s cur. induction f as [|f IH]; intros s cur Hf Hcur Hp; [lia|].
  destruct s as [|c s']; cbn [split_go] in Hp.
  - destruct Hp as [<-|[]]. exact Hcur.
  - cbn [starts_with] in Hp. rewrite andb_true_r in Hp.
    destruct (Ascii.eqb z c) eqn:E.
    + destruct Hp as [<-|Hp]; [exact Hcur|].
      cbn [String.length drop_n] in Hp. apply (IH s' EmptyString); auto; simpl in Hf; lia.
    + apply (IH s' (cur ++ String c EmptyString)%string); auto; [simpl in Hf; lia|].
      rewrite list_ascii_of_string_app. intros Hin. apply in_app_or in Hin as [Hin|[Hin|[]]]; [exact (Hcur Hin)|].
      subst c. rewrite Ascii.eqb_refl in E. discriminate.
Qed.

Lemma js_split_no_char (z : ascii) (s p : string) :
  In p (js_split (String z EmptyString) s) -> ~ In z (list_ascii_of_string p).
Proof. intros H. apply (split_go_no_char (S (String.length s)) z s EmptyString p); auto. Qed.

Lemma js_replace_chars (pat rep s : string) (a : ascii) :
  In a (list_ascii_of_string (js_replace pat rep s)) -> In a (list_ascii_of_string rep) \/ In a (list_ascii_of_string s).
Proof.
  induction s as [|c s IH]; cbn [js_replace].
  - destruct (starts_with pat ""); [|intros []].
    rewrite list_ascii_of_string_app. intros H. apply in_app_or in H as [H|H]; [left; exact H|].
    right. exact (drop_n_chars _ _ _ H).
  - destruct (starts_with pat (String c s)).
    + rewrite list_ascii_of_string_app. intros H. apply in_app_or in H as [H|H]; [left; exact H|].
      right. exact (drop_n_chars _ _ _ H).
    + intros [<-|H]; [right; left; reflexivity|].
      destruct (IH H) as [H'|H']; [left; exact H' | right; right; exact H'].
Qed.

Lemma trim_start_in (l : list ascii) (a : ascii) : In a (trim_start_l l) -> In a l.
Proof.
  destruct (trim_start_suffix l) as [p Hp]. intros H. rewrite Hp. apply in_or_app. right. exact H.
Qed.

Lemma js_trim_chars (s : string) (a : ascii) :
  In a (list_ascii_of_string (js_trim s)) -> In a (list_ascii_of_string s).
Proof.
  unfold js_trim, list_ascii_of_string. rewrite list_ascii_of_string_of_list_ascii.
  intros H. apply in_rev, trim_start_in, in_rev, trim_start_in in H. exact H.
Qed.

Lemma js_join_chars (sep : string) (l : list string) (a : ascii) :
  In a (list_ascii_of_string (js_join sep l)) -> In a (list_ascii_of_string sep) \/ exists p, In p l /\ In a (list_ascii_of_string p).
Proof.
  induction l as [|x l IH]; [intros []|].
  destruct l as [|y l].
  - intros H. right. exists x. split; [left; reflexivity | exact H].
  - change (js_join sep (x :: y :: l)) with (x ++ sep ++ js_join sep (y :: l))%string.
    rewrite !list_ascii_of_string_app. intros H. apply in_app_or in H as [H|H].
    + right. exists x. split; [left; reflexivity | exact H].
    + apply in_app_or in H as [H|H]; [left; exact H|].
      destruct (IH H) as [H'|[p [Hp Ha]]]; [left; exact H'|].
      right. exists p. split; [right; exact Hp | exact Ha].
Qed.

Lemma js_slice_in {A} (b e : nat) (l : list A) (x : A) : In x (js_slice b e l) -> In x l.
Proof.
  unfold js_slice. intros H. rewrite <- (firstn_skipn b l). apply in_or_app. right.
  rewrite <- (firstn_skipn (e - b) (skipn b l)). apply in_or_app. left. exact H.
Qed.

(** The store address extracted never contains a line feed. *)
Theorem extractStoreAddress_one_line (storeAddressRaw : string) :
  ~ In nl (list_ascii_of_string (extractStoreAddress storeAddressRaw)).
Proof.
  unfold extractStoreAddress. intros H. apply js_join_chars in H as [H|[p [Hp Ha]]].
  - destruct H as [H|[H|[]]]; discriminate H.
  - apply in_map_iff in Hp as [l [<- Hl]]. apply js_slice_in in Hl.
    apply js_trim_chars, js_replace_chars in Ha as [Ha|Ha]; [destruct Ha|].
    exact (js_split_no_char nl storeAddressRaw l Hl Ha).
Qed.

(* ------------------------------------------------------------------ *)
(** ** The loader *)

Lemma skipn_nth_cons {A} (l : list A) (i : nat) (d : A) :
  i < List.length l -> skipn i l = nth i l d :: skipn (S i) l.
Proof.
  revert i. induction l as [|x l IH]; intros i Hi; [simpl in Hi; lia|].
  destruct i as [|i]; [reflexivity|]. simpl in Hi |- *. apply IH. lia.
Qed.

Lemma findMatchingPurchaseId_from_find (dateString : JsVal -> string) (rows : Grid)
    (storeId purchaseDate : JsVal) (fuel i : nat) :
  List.length rows <= i + fuel ->
  findMatchingPurchaseId_from dateString rows storeId purchaseDate i fuel =
  match find (purchaseRowMatches dateString storeId purchaseDate) (skipn i rows) with
  | Some row => cell row purchaseIdColumnIndex
  | None => JNull
  end.
Proof.
  revert i. induction fuel as [|f IH]; intros i Hlen; simpl.
  - rewrite skipn_all2 by lia. reflexivity.
  - destruct (Nat.ltb i (List.length rows)) eqn:E.
    + apply Nat.ltb_lt in E. rewrite (skipn_nth_cons rows i []) by exact E.
      cbn [find]. unfold purchaseRowMatches. rewrite andb_true_r.
      destruct (_ && _); [reflexivity|]. apply IH. lia.
    + apply Nat.ltb_ge in E. rewrite skipn_all2 by lia. reflexivity.
Qed.

Lemma findMatchingPurchaseId_find (dateString : JsVal -> string) (purchasesData : Grid)
    (storeId purchaseDate totalPrice : JsVal) :
  findMatchingPurchaseId dateString purchasesData storeId purchaseDate totalPrice =
  match find (purchaseRowMatches dateString storeId purchaseDate) (skipn 1 purchasesData) with
  | Some row => cell row purchaseIdColumnIndex
  | None => JNull
  end.
Proof. unfold findMatchingPurchaseId. apply findMatchingPurchaseId_from_find. lia. Qed.

Lemma js_indexOf_map_find (f : list JsVal -> JsVal) (R : Grid) (x : JsVal) :
  match js_indexOf (map f R) x with
  | Some i => exists row, nth_error R i = Some row /\
                find (fun r => js_strict_eq (f r) x) R = Some row
  | None => find (fun r => js_strict_eq (f r) x) R = None
  end.
Proof.
  induction R as [|r R IH]; simpl; [reflexivity|].
  destruct (js_strict_eq (f r) x) eqn:E; simpl.
  - exists r. split; reflexivity.
  - destruct (js_indexOf (map f R) x) as [i|]; simpl; exact IH.
Qed.

(** [findMatchingPurchaseId] returns the id cell of the first row after the
    header whose store id is [===] to [storeId] and whose date renders as
    [purchaseDate] does, and [null] when there is none; the total price is
    ignored. *)
Theorem findMatchingPurchaseId_first (dateString : JsVal -> string) (purchasesData : Grid)
    (storeId purchaseDate totalPrice : JsVal) :
  findMatchingPurchaseId dateString purchasesData storeId purchaseDate totalPrice =
  match find (purchaseRowMatches dateString storeId purchaseDate) (skipn 1 purchasesData) with
  | Some row => cell row purchaseIdColumnIndex
  | None => JNull
  end.
Proof. apply findMatchingPurchaseId_find. Qed.

Lemma getStoreId_eq (storesData : Grid) (storeName : string) (data : receiptData) :
  getStoreId storesData storeName data =
  match find (storeRowMatches (fst data)) (skipn 1 storesData) with
  | Some row => ([], inl (cell row 0))
  | None =>
      ([AppendStores [JNull; JStr storeName; JStr (fst data)]],
       match getLastRowData storesData with
       | Some row => inl (cell row 0)
       | None => inr LTypeError
       end)
  end.
Proof.
  unfold getStoreId. cbv zeta. rewrite skipn_map.
  pose proof (js_indexOf_map_find (fun row => cell row 2) (skipn 1 storesData)
                (JStr (fst data))) as H.
  unfold storeRowMatches.
  destruct (js_indexOf _ _) as [i|].
  - destruct H as [row [Hn Hf]]. rewrite Hf.
    rewrite Nat.add_comm, <- (nth_error_skipn 1 storesData i), Hn. reflexivity.
  - rewrite H. destruct (getLastRowData storesData); reflexivity.
Qed.

(** [getStoreId] returns, without writing anything, the id cell of the first
    row after the header whose address is the receipt's; when there is
    none, it appends the row [[null, storeName, address]] to [stores] and
    returns the id cell of the last row read before that append (a
    [TypeError] when the sheet had no row at all). *)
Theorem getStoreId_spec (storesData : Grid) (storeName : string) (data : receiptData) :
  getStoreId storesData storeName data =
  match find (storeRowMatches (fst data)) (skipn 1 storesData) with
  | Some row => ([], inl (cell row 0))
  | None =>
      ([AppendStores [JNull; JStr storeName; JStr (fst data)]],
       match getLastRowData storesData with
       | Some row => inl (cell row 0)
       | None => inr LTypeError
       end)
  end.
Proof. apply getStoreId_eq. Qed.

Lemma getLastRowData_last (rows : Grid) :
  rows <> [] -> getLastRowData rows = Some (last rows []).
Proof.
  unfold getLastRowData. induction rows as [|r rows IH]; intros H; [contradiction|].
  destruct rows as [|r' rows]; [reflexivity|].
  simpl in IH |- *. rewrite Nat.sub_0_r in IH. apply IH. discriminate.
Qed.

(** For a store not yet in a nonempty [stores] sheet, [getStoreId] appends
    one row and returns the id cell of the sheet's last row as read
    before the append, not an id of the new row. *)
Theorem getStoreId_new (storesData : Grid) (storeName : string) (data : receiptData) :
  find (storeRowMatches (fst data)) (skipn 1 storesData) = None ->
  storesData <> [] ->
  getStoreId storesData storeName data =
  ([AppendStores [JNull; JStr storeName; JStr (fst data)]],
   inl (cell (last storesData []) 0)).
Proof. intros H Hne. rewrite getStoreId_eq, H, getLastRowData_last by exact Hne. reflexivity. Qed.

(** [getPurchaseId] never writes to a sheet: it returns the id found by
    [findMatchingPurchaseId] when that id is truthy, and otherwise throws a
    [ReferenceError] ([purchasesSheet] is not in scope) before appending. *)
Theorem getPurchaseId_never_appends (dateString : JsVal -> string) (purchasesData : Grid)
    (storeId date totalPrice : JsVal) :
  fst (getPurchaseId dateString purchasesData storeId date totalPrice) = [] /\
  (find (purchaseRowMatches dateString storeId date) (skipn 1 purchasesData) = None ->
   snd (getPurchaseId dateString purchasesData storeId date totalPrice) = inr LReferenceError) /\
  (forall row,
   find (purchaseRowMatches dateString storeId date) (skipn 1 purchasesData) = Some row ->
   snd (getPurchaseId dateString purchasesData storeId date totalPrice) =
   if js_truthy (cell row 0) then inl (cell row 0) else inr LReferenceError).
Proof.
  unfold getPurchaseId. cbv zeta. rewrite findMatchingPurchaseId_find.
  split; [|split].
  - destruct (find _ _) as [row|]; [destruct (js_truthy _)|]; reflexivity.
  - intros H. rewrite H. reflexivity.
  - intros row H. rewrite H. destruct (js_truthy _); reflexivity.
Qed.

Lemma forEach_emit {A} (l : list A) (f : A -> Effect) :
  forEach l (fun x => emit (f x)) = (map f l, inl tt).
Proof.
  induction l as [|x l IH]; [reflexivity|].
  cbn [forEach]. rewrite IH. reflexivity.
Qed.

Lemma loadLineItems_eq (purchaseId : JsVal) (data : receiptData) :
  loadLineItems purchaseId data =
  (map (fun item => AppendPriceLog (priceLogRow purchaseId item)) (snd data), inl tt).
Proof. unfold loadLineItems. apply forEach_emit. Qed.

(** [loadLineItems] appends to [priceLog] one row per line item, in the
    order of the items, and nothing else: description, details, three
    nulls, ["EUR"], price and the purchase id. *)
Theorem loadLineItems_rows (purchaseId : JsVal) (data : receiptData) :
  loadLineItems purchaseId data =
  (map (fun item => AppendPriceLog (priceLogRow purchaseId item)) (snd data), inl tt).
Proof. apply loadLineItems_eq. Qed.

(** The effects of processing one message, once the receipt is extracted. *)
Lemma processMessage_spec (dateString : JsVal -> string) (sh : Sheets) (message : Message)
    (data : receiptData) :
  extractReceiptData (getBody message) = Some data ->
  processMessage dateString sh message =
  let '(w, r) := getStoreId (storesValues sh) "Netto Marken-Discount" data in
  match r with
  | inr _ => w
  | inl storeId =>
      match find (purchaseRowMatches dateString storeId (getDate message))
                 (skipn 1 (purchasesValues sh)) with
      | Some row =>
          if js_truthy (cell row 0)
          then w ++ map (fun item => AppendPriceLog (priceLogRow (cell row 0) item)) (snd data)
                 ++ [MarkRead]
          else w
      | None => w
      end
  end.
Proof.
  intros H. unfold processMessage. rewrite H. unfold loadReceiptDataToSheet.
  destruct (getStoreId _ _ _) as [w [storeId|e]].
  - cbn [bind]. unfold getPurchaseId. cbv zeta. rewrite findMatchingPurchaseId_find.
    unfold purchaseIdColumnIndex.
    destruct (find _ _) as [row|]; [destruct (js_truthy (cell row 0))|];
      cbn [bind ret throw js_truthy]; [rewrite loadLineItems_eq| |];
      cbn [bind ret throw emit fst snd app]; rewrite ?app_nil_r, <- ?app_assoc; reflexivity.
  - reflexivity.
Qed.

Lemma getStoreId_effects (storesData : Grid) (storeName : string) (data : receiptData) (e : Effect) :
  In e (fst (getStoreId storesData storeName data)) -> exists row, e = AppendStores row.
Proof.
  rewrite getStoreId_eq. destruct (find _ _); simpl; [intros []|].
  intros [<-|[]]. eauto.
Qed.

(** A message is marked read exactly when its receipt is extracted, its
    store id is obtained, and the first purchase row after the header that
    matches that store and the message date has a truthy id (a later
    matching row is never looked at). *)
Theorem processMessage_marks_read (dateString : JsVal -> string) (sh : Sheets) (message : Message) :
  In MarkRead (processMessage dateString sh message) <->
  exists data storeId row,
    extractReceiptData (getBody message) = Some data /\
    snd (getStoreId (storesValues sh) "Netto Marken-Discount" data) = inl storeId /\
    find (purchaseRowMatches dateString storeId (getDate message))
         (skipn 1 (purchasesValues sh)) = Some row /\
    js_truthy (cell row 0) = true.
Proof.
  destruct (extractReceiptData (getBody message)) as [data|] eqn:Ex.
  - rewrite (processMessage_spec _ _ _ data Ex).
    pose proof (getStoreId_effects (storesValues sh) "Netto Marken-Discount" data) as Hw.
    destruct (getStoreId (storesValues sh) "Netto Marken-Discount" data)
      as [w [storeId|err]] eqn:Eg; cbn [fst snd] in Hw |- *.
    + destruct (find _ _) as [row|] eqn:Ef; [destruct (js_truthy (cell row 0)) eqn:Et|].
      * split; [intros _ | intros _; rewrite !in_app_iff; right; right; left; reflexivity].
        exists data, storeId, row. rewrite Eg. repeat split; auto.
      * split; [intros H; destruct (Hw _ H) as [? [=]]|].
        intros [d [s [r [[= <-] [Hs [Hr Ht]]]]]]. rewrite Eg in Hs. injection Hs as <-.
        rewrite Ef in Hr.
        injection Hr as <-. congruence.
      * split; [intros H; destruct (Hw _ H) as [? [=]]|].
        intros [d [s [r [[= <-] [Hs [Hr Ht]]]]]]. rewrite Eg in Hs. injection Hs as <-.
        congruence.
    + split; [intros H; destruct (Hw _ H) as [? [=]]|].
      intros [d [s [r [[= <-] [Hs _]]]]]. rewrite Eg in Hs. discriminate Hs.
  - unfold processMessage. rewrite Ex. split; [intros []|].
    intros [d [s [r [Hd _]]]]. discriminate Hd.
Qed.

(** When no purchase row matches, processing a message writes at most the
    new store row: no line item is logged and the message is not marked
    read. *)
Theorem processMessage_no_purchase (dateString : JsVal -> string) (sh : Sheets)
    (message : Message) (data : receiptData) (storeId : JsVal) :
  extractReceiptData (getBody message) = Some data ->
  snd (getStoreId (storesValues sh) "Netto Marken-Discount" data) = inl storeId ->
  find (purchaseRowMatches dateString storeId (getDate message))
       (skipn 1 (purchasesValues sh)) = None ->
  processMessage dateString sh message =
    fst (getStoreId (storesValues sh) "Netto Marken-Discount" data) /\
  (forall e, In e (processMessage dateString sh message) -> exists row, e = AppendStores row).
Proof.
  intros Ex Hs Hf.
  assert (E : processMessage dateString sh message =
              fst (getStoreId (storesValues sh) "Netto Marken-Discount" data)).
  { rewrite (processMessage_spec _ _ _ data Ex).
    destruct (getStoreId _ _ _) as [w [s|err]]; cbn [snd] in Hs; [|discriminate Hs].
    injection Hs as ->. rewrite Hf. reflexivity. }
  split; [exact E|]. rewrite E. apply getStoreId_effects.
Qed.

(** When the first purchase row after the header that matches the store
    and the message date has a truthy id, processing a message performs
    the writes of [getStoreId], then appends one [priceLog] row per line
    item with that id, then marks the message read. *)
Theorem processMessage_loaded (dateString : JsVal -> string) (sh : Sheets)
    (message : Message) (data : receiptData) (w : list Effect) (storeId : JsVal)
    (row : list JsVal) :
  extractReceiptData (getBody message) = Some data ->
  getStoreId (storesValues sh) "Netto Marken-Discount" data = (w, inl storeId) ->
  find (purchaseRowMatches dateString storeId (getDate message))
       (skipn 1 (purchasesValues sh)) = Some row ->
  js_truthy (cell row 0) = true ->
  processMessage dateString sh message =
  w ++ map (fun item => AppendPriceLog (priceLogRow (cell row 0) item)) (snd data)
    ++ [MarkRead].
Proof.
  intros Ex Hs Hf Ht. rewrite (processMessage_spec _ _ _ data Ex), Hs, Hf, Ht. reflexivity.
Qed.

Lemma getStoreId_new_witness :
  (find (storeRowMatches (fst sampleData)) (skipn 1 [storesHeader]) = None /\
   [storesHeader] <> []) /\
  getStoreId [storesHeader] "Netto Marken-Discount" sampleData =
  ([AppendStores [JNull; JStr "Netto Marken-Discount"; JStr (fst sampleData)]],
   inl (cell (last [storesHeader] []) 0)).
Proof.
  assert (H1 : find (storeRowMatches (fst sampleData)) (skipn 1 [storesHeader]) = None)
    by reflexivity.
  assert (H2 : [storesHeader] <> []) by discriminate.
  split; [split; assumption|].
  exact (getStoreId_new [storesHeader] "Netto Marken-Discount" sampleData H1 H2).
Defined.

Lemma processMessage_no_purchase_witness :
  (extractReceiptData (getBody sampleMessage) = Some sampleData /\
   snd (getStoreId (storesValues sheetsNoPurchase) "Netto Marken-Discount" sampleData)
     = inl sampleStoreId /\
   find (purchaseRowMatches sampleDateString sampleStoreId (getDate sampleMessage))
        (skipn 1 (purchasesValues sheetsNoPurchase)) = None) /\
  (processMessage sampleDateString sheetsNoPurchase sampleMessage =
     fst (getStoreId (storesValues sheetsNoPurchase) "Netto Marken-Discount" sampleData) /\
   (forall e, In e (processMessage sampleDateString sheetsNoPurchase sampleMessage) ->
      exists row, e = AppendStores row)).
Proof.
  assert (H1 : extractReceiptData (getBody sampleMessage) = Some sampleData)
    by (vm_compute; reflexivity).
  assert (H2 : snd (getStoreId (storesValues sheetsNoPurchase) "Netto Marken-Discount" sampleData)
     = inl sampleStoreId) by (vm_compute; reflexivity).
  assert (H3 : find (purchaseRowMatches sampleDateString sampleStoreId (getDate sampleMessage))
        (skipn 1 (purchasesValues sheetsNoPurchase)) = None) by reflexivity.
  split; [repeat split; assumption|].
  exact (processMessage_no_purchase sampleDateString sheetsNoPurchase sampleMessage
           sampleData sampleStoreId H1 H2 H3).
Defined.

Lemma processMessage_loaded_witness :
  (extractReceiptData (getBody sampleMessage) = Some sampleData /\
   getStoreId (storesValues sheetsWithPurchase) "Netto Marken-Discount" sampleData
     = ([], inl sampleStoreId) /\
   find (purchaseRowMatches sampleDateString sampleStoreId (getDate sampleMessage))
        (skipn 1 (purchasesValues sheetsWithPurchase)) = Some samplePurchaseRow /\
   js_truthy (cell samplePurchaseRow 0) = true) /\
  processMessage sampleDateString sheetsWithPurchase sampleMessage =
  [] ++ map (fun item => AppendPriceLog (priceLogRow (cell samplePurchaseRow 0) item))
            (snd sampleData) ++ [MarkRead].
Proof.
  assert (H1 : extractReceiptData (getBody sampleMessage) = Some sampleData)
    by (vm_compute; reflexivity).
  assert (H2 : getStoreId (storesValues sheetsWithPurchase) "Netto Marken-Discount" sampleData
     = ([], inl sampleStoreId)) by (vm_compute; reflexivity).
  assert (H3 : find (purchaseRowMatches sampleDateString sampleStoreId (getDate sampleMessage))
        (skipn 1 (purchasesValues sheetsWithPurchase)) = Some samplePurchaseRow)
    by (vm_compute; reflexivity).
  assert (H4 : js_truthy (cell samplePurchaseRow 0) = true) by reflexivity.
  split; [repeat split; assumption|].
  exact (processMessage_loaded sampleDateString sheetsWithPurchase sampleMessage
           sampleData [] sampleStoreId samplePurchaseRow H1 H2 H3 H4).
Defined.
